(** * FAIR simulator: client-side risk calculations

    A shallow embedding of the TypeScript front end of the FAIR risk
    quantification tool (security-decision-labs), and the properties of its
    portfolio aggregation, percentile extraction, sensitivity analysis and
    client-side Monte Carlo.

    Numbers.  A JavaScript [number] is an IEEE-754 double.  Every finite
    double is a rational, so the arithmetic of the calculators ([+], [*],
    [/], comparisons, [Math.floor], [Math.min], [Math.max]) is embedded over
    [Q] with exact operations: rounding error is left out, everything else is
    as the code computes it, and the definitions evaluate.  Numeric equality
    ([===] on numbers) is [Qeq].  The logit perturbation of the sensitivity
    analysis needs [Math.log] and [Math.exp] and reaches the special values
    of the format; it is embedded in Module [Logit] over the reals extended
    with [NaN] and the two infinities. *)

From Stdlib Require Import QArith Qminmax Qround Qabs Lqa Lia List ZArith.
From Stdlib Require Import Permutation Sorted Reals Qreals Lra.
From stdpp Require Import gmap strings.

Local Open Scope Q_scope.

(** ** App.tsx: the scenario record (the numeric fields and the id) *)

Record RiskScenario := mkScenario {
  id : string;
  threatEventFrequency : Q;
  susceptibility : Q;
  productivity : Q;
  response : Q;
  replacement : Q;
  fines : Q;
  competitiveAdvantage : Q;
  reputation : Q;
  slef : Q
}.

(** [x || 0] on a number: a falsy number (zero) is replaced by [0]. *)
Definition or_zero (x : Q) : Q := if Qeq_bool x 0 then 0 else x.

(** [x > y] on numbers. *)
Definition Qgtb (x y : Q) : bool := negb (Qle_bool x y).

(** [Math.floor] of a non-negative quantity used as an array index. *)
Definition floor_index (x : Q) : nat := Z.to_nat (Qfloor x).

(** [Σ] of a list of numbers, left to right from [0]. *)
Definition Qsum (l : list Q) : Q := fold_left Qplus l 0.

(** ** hooks/useFairCalculation.ts *)

Module UseFairCalculation.

Record ClientSideResult := mkResult {
  lef : Q;
  slee : Q;
  ale : Q;
  ale_p10 : Q;
  ale_p50 : Q;
  ale_p90 : Q;
  ale_p95 : Q;
  ale_p99 : Q
}.

Definition calculateClientSide (scenario : RiskScenario) : ClientSideResult :=
  let lef := threatEventFrequency scenario * (susceptibility scenario / 100) in
  let primaryLoss :=
    productivity scenario + response scenario + replacement scenario in
  let secondaryLoss :=
    fines scenario + competitiveAdvantage scenario + reputation scenario in
  let slee := primaryLoss + (secondaryLoss * (slef scenario / 100)) in
  let ale := lef * slee in
  {| lef := lef;
     slee := slee;
     ale := ale;
     ale_p10 := ale * (3 # 10);
     ale_p50 := ale;
     ale_p90 := ale * (5 # 2);
     ale_p95 := ale * (7 # 2);
     ale_p99 := ale * 5 |}.

End UseFairCalculation.

(** ** components/Dashboard.tsx: the client-side portfolio metrics *)

Module Dashboard.

Import UseFairCalculation.

Record ScenarioCalculations := mkCalc {
  c_ale : Q;
  c_lef : Q;
  c_slee : Q
}.

Record PortfolioMetrics := mkMetrics {
  total_ale : Q;
  expected_events_per_year : Q;
  weighted_average_lm : Q;
  top_scenario_share : Q;
  top_scenario_id : string
}.

(** The entry [{ ale: result.ale, lef: result.lef, slee: result.slee }]
    stored for a scenario. *)
Definition entryOf (scenario : RiskScenario) : ScenarioCalculations :=
  let result := calculateClientSide scenario in
  {| c_ale := ale result; c_lef := lef result; c_slee := slee result |}.

(** [calc[scenario.id] = {...}] for each scenario, in order: a later
    scenario with the same id overwrites the earlier entry. *)
Definition buildCalc (scenarios : list RiskScenario)
  : gmap string ScenarioCalculations :=
  fold_left
    (fun calc scenario => <[ id scenario := entryOf scenario ]> calc)
    scenarios ∅.

(** [Object.values(calc).reduce((sum, c) => sum + g(c), 0)]. *)
Definition reduceValues (g : ScenarioCalculations -> Q)
    (calc : gmap string ScenarioCalculations) : Q :=
  map_fold (fun _ c sum => sum + g c) 0 calc.

(** [Math.max(...ales)]; the empty spread gives [-Infinity], which has no
    rational value and is [None] here. *)
Definition Math_max (l : list Q) : option Q :=
  match l with
  | [] => None
  | x :: t => Some (fold_left Qmax t x)
  end.

(** [ales.indexOf(maxALE)]: the first position holding a number equal to
    [x]; [None] stands for [-1]. *)
Fixpoint indexOf (l : list Q) (x : Q) : option nat :=
  match l with
  | [] => None
  | y :: t => if Qeq_bool y x then Some O
              else option_map S (indexOf t x)
  end.

(** [calc[s.id]?.ale || 0]. *)
Definition aleOf (calc : gmap string ScenarioCalculations)
    (s : RiskScenario) : Q :=
  match calc !! id s with
  | Some c => or_zero (c_ale c)
  | None => 0
  end.

(** [calculateClientSideMetrics], the value handed to
    [setPortfolioMetrics].  The effect runs it only when
    [scenarios.length > 0]; on the empty list the result is [None]. *)
Definition calculateClientSideMetrics (scenarios : list RiskScenario)
  : option PortfolioMetrics :=
  let calc := buildCalc scenarios in
  let totalALE := reduceValues c_ale calc in
  let totalLEF := reduceValues c_lef calc in
  let weightedAvgLM :=
    if Qgtb totalLEF 0
    then reduceValues (fun c => c_lef c * c_slee c) calc / totalLEF
    else 0 in
  let ales := map (aleOf calc) scenarios in
  match Math_max ales with
  | None => None
  | Some maxALE =>
      let maxIndex := indexOf ales maxALE in
      let topScenarioShare :=
        if Qgtb totalALE 0 then (maxALE / totalALE) * 100 else 0 in
      let topScenarioId :=
        match maxIndex with
        | Some i => match nth_error scenarios i with
                    | Some s => id s
                    | None => ""%string
                    end
        | None => ""%string
        end in
      Some {| total_ale := totalALE;
              expected_events_per_year := totalLEF;
              weighted_average_lm := weightedAvgLM;
              top_scenario_share := topScenarioShare;
              top_scenario_id := topScenarioId |}
  end.

End Dashboard.

(** A template literal: literal text, [${x}] for a number, [x.toFixed(d)],
    concatenation. *)
Inductive text :=
| Lit (s : string)
| Num (x : Q)
| Fixed (x : Q) (digits : nat)
| Cat (a b : text).

(** ** components/AggregatedMetrics.tsx: what the metric cards show *)

Module AggregatedMetrics.

Import Dashboard.

Record Metric := mkMetric {
  label : string;
  value : text;
  formula : string;
  subtitle : string
}.

Definition zeroLEF (portfolioMetrics : PortfolioMetrics) : bool :=
  Qeq_bool (expected_events_per_year portfolioMetrics) 0.

Definition highConcentration (portfolioMetrics : PortfolioMetrics) : bool :=
  Qgtb (top_scenario_share portfolioMetrics) 70.

(** The [metrics] array; [topScenarioName] is [topScenario?.name || 'N/A']. *)
Definition metrics (portfolioMetrics : PortfolioMetrics)
    (topScenarioName : string) : list Metric :=
  [ {| label := "Total Annual Loss Exposure (mean)";
       value := Cat (Lit "$")
                  (Cat (Fixed (total_ale portfolioMetrics / 1000000) 2)
                       (Lit "M"));
       formula := "Σ ALE_i";
       subtitle := "" |};
    {| label := "Expected Events per Year";
       value := if zeroLEF portfolioMetrics then Lit "N/A"
                else Fixed (expected_events_per_year portfolioMetrics) 2;
       formula := "Σ LEF_i";
       subtitle := if zeroLEF portfolioMetrics then "No expected events"
                   else "events/yr" |};
    {| label := "Average Loss Magnitude";
       value := if zeroLEF portfolioMetrics then Lit "N/A"
                else Cat (Lit "$")
                       (Cat (Fixed (weighted_average_lm portfolioMetrics
                                    / 1000) 0)
                            (Lit "K"));
       formula := if zeroLEF portfolioMetrics then "undefined"
                  else "Σ(LEF_i × LM_i) / Σ LEF_i";
       subtitle := if zeroLEF portfolioMetrics then ""
                   else "per event, USD 2025" |};
    {| label := "Top Scenario Share of Total";
       value := Cat (Fixed (top_scenario_share portfolioMetrics) 0)
                    (Lit "%");
       formula := "max(ALE_i) / Σ ALE_i";
       subtitle := topScenarioName |} ]%string.

(** The line of the text built by [copyFormulas] that gives the average
    loss magnitude:
    [Average LM (per event): $${(weighted_average_lm / 1000).toFixed(0)}K]. *)
Definition copyFormulas_averageLM (portfolioMetrics : PortfolioMetrics) : text :=
  Cat (Lit "Average LM (per event): $")
      (Cat (Fixed (weighted_average_lm portfolioMetrics / 1000) 0) (Lit "K")).

(** The card labelled "Average Loss Magnitude". *)
Definition averageLossMagnitudeCard (portfolioMetrics : PortfolioMetrics)
    (topScenarioName : string) : option Metric :=
  nth_error (metrics portfolioMetrics topScenarioName) 2.

End AggregatedMetrics.

(** ** Array.prototype.sort and Math.random *)

(** [array.sort(compareFn)]: a stable sort; [a] stays before [b] when
    [compareFn a b <= 0]. *)
Fixpoint sort_insert (compareFn : Q -> Q -> Q) (x : Q) (l : list Q) : list Q :=
  match l with
  | [] => [x]
  | y :: t => if Qle_bool (compareFn x y) 0 then x :: y :: t
              else y :: sort_insert compareFn x t
  end.

Definition Array_sort (compareFn : Q -> Q -> Q) (l : list Q) : list Q :=
  fold_right (sort_insert compareFn) [] l.

(** [(a, b) => a - b] and [(a, b) => b - a]. *)
Definition ascending (a b : Q) : Q := a - b.
Definition descending (a b : Q) : Q := b - a.

(** A computation that calls [Math.random()]: it reads the sequence of
    numbers the generator will return, from a position on, and gives the
    position it has reached. *)
Definition Rand (A : Type) : Type := (nat -> Q) -> nat -> A * nat.

Definition ret {A} (a : A) : Rand A := fun _ k => (a, k).

Definition bind {A B} (c : Rand A) (f : A -> Rand B) : Rand B :=
  fun random k => let (a, k') := c random k in f a random k'.

Definition Math_random : Rand Q := fun random k => (random k, S k).

Notation "'let*' x ':=' c 'in' f" := (bind c (fun x => f))
  (at level 10, x name, c at level 100, f at level 200).

(** [for (let i = 0; i < n; i++) { ...; results.push(ale) }]. *)
Fixpoint pushLoop (n : nat) (body : Rand Q) (results : list Q)
  : Rand (list Q) :=
  match n with
  | O => ret results
  | S n' => let* ale := body in pushLoop n' body (results ++ [ale])
  end.

(** The generator returns numbers in [[0, 1)]. *)
Definition unit_interval (random : nat -> Q) : Prop :=
  forall i, 0 <= random i /\ random i < 1.

(** ** components/SensitivityAnalysis.tsx *)

Module SensitivityAnalysis.

Inductive FAIRFactor :=
| threatEventFrequency_
| susceptibility_
| productivity_
| response_
| replacement_
| fines_
| competitiveAdvantage_
| reputation_
| slef_.

Definition calculatePrimaryLoss (s : RiskScenario) : Q :=
  or_zero (productivity s) + or_zero (response s) + or_zero (replacement s).

Definition calculateSecondaryLoss (s : RiskScenario) : Q :=
  or_zero (fines s) + or_zero (competitiveAdvantage s)
  + or_zero (reputation s).

Definition calculateLM (primaryLoss secondaryLoss slef : Q) : Q :=
  primaryLoss + (secondaryLoss * (slef / 100)).

Definition calculateLEF (threatEventFrequency susceptibility : Q) : Q :=
  threatEventFrequency * (susceptibility / 100).

Definition calculateALE (lef slee : Q) : Q := lef * slee.

(** The point-estimate ALE of a scenario, as every caller composes it. *)
Definition pointALE (s : RiskScenario) : Q :=
  calculateALE
    (calculateLEF (threatEventFrequency s) (susceptibility s))
    (calculateLM (calculatePrimaryLoss s) (calculateSecondaryLoss s)
       (slef s)).

Record Band := mkBand { p10 : option Q; p50 : option Q; p90 : option Q }.

(** One pass of the loop body of [runMonteCarloForPoint]. *)
Definition iteration (testScenario : RiskScenario) : Rand Q :=
  let* r1 := Math_random in
  let tefVariation :=
    or_zero (threatEventFrequency testScenario) * ((4 # 5) + r1 * (2 # 5)) in
  let* r2 := Math_random in
  let suscVariation :=
    or_zero (susceptibility testScenario) * ((4 # 5) + r2 * (2 # 5)) in
  let* r3 := Math_random in
  let primaryVariation :=
    calculatePrimaryLoss testScenario * ((4 # 5) + r3 * (2 # 5)) in
  let* r4 := Math_random in
  let secondaryVariation :=
    calculateSecondaryLoss testScenario * ((4 # 5) + r4 * (2 # 5)) in
  let* r5 := Math_random in
  let slefVariation :=
    or_zero (slef testScenario) * ((4 # 5) + r5 * (2 # 5)) in
  let lef := calculateLEF tefVariation suscVariation in
  let slee := calculateLM primaryVariation secondaryVariation slefVariation in
  let ale := calculateALE lef slee in
  ret ale.


(** [results.sort((a, b) => a - b)] and the three reads
    [results[Math.floor(results.length * q)]]; a read past the end is
    [undefined], here [None]. *)
Definition percentilesOf (samples : list Q) : Band :=
  let results := Array_sort ascending samples in
  let n := inject_Z (Z.of_nat (length results)) in
  {| p10 := nth_error results (floor_index (n * (1 # 10)));
     p50 := nth_error results (floor_index (n * (1 # 2)));
     p90 := nth_error results (floor_index (n * (9 # 10))) |}.


(** [getPartialDerivative]: the formula shown and the value. *)
Definition getPartialDerivative (scenario : RiskScenario)
    (selectedFactor : FAIRFactor) : string * Q :=
  let lef :=
    calculateLEF (threatEventFrequency scenario) (susceptibility scenario) in
  let lm :=
    calculateLM (calculatePrimaryLoss scenario)
      (calculateSecondaryLoss scenario) (slef scenario) in
  let secondaryTotal := calculateSecondaryLoss scenario in
  match selectedFactor with
  | threatEventFrequency_ =>
      ("∂ALE/∂TEF = Susceptibility × LM"%string,
       (susceptibility scenario / 100) * lm)
  | susceptibility_ =>
      ("∂ALE/∂Susc = TEF × LM × 0.01"%string,
       threatEventFrequency scenario * lm * (1 # 100))
  | slef_ =>
      ("∂ALE/∂SLEF = LEF × Σ(Secondary) × 0.01"%string,
       lef * secondaryTotal * (1 # 100))
  | productivity_ | response_ | replacement_ =>
      ("∂ALE/∂L = LEF"%string, lef)
  | fines_ | competitiveAdvantage_ | reputation_ =>
      ("∂ALE/∂L = LEF × SLEF × 0.01"%string, lef * (slef scenario / 100))
  end.

End SensitivityAnalysis.

(** ** components/ScenarioDetail.tsx *)

Module ScenarioDetail.

Definition calculatePrimaryLoss (s : RiskScenario) : Q :=
  productivity s + response s + replacement s.

Definition calculateSecondaryLoss (s : RiskScenario) : Q :=
  fines s + competitiveAdvantage s + reputation s.

Definition calculateSLEE (s : RiskScenario) : Q :=
  let primaryLoss := calculatePrimaryLoss s in
  let secondaryLoss := calculateSecondaryLoss s in
  primaryLoss + (secondaryLoss * (slef s / 100)).

Definition calculateLEF (s : RiskScenario) : Q :=
  threatEventFrequency s * (susceptibility s / 100).

Definition calculateALE (s : RiskScenario) : Q :=
  calculateLEF s * calculateSLEE s.

(** One pass of the loop body of [runMonteCarloSimulation]. *)
Definition iteration (s : RiskScenario) : Rand Q :=
  let* r1 := Math_random in
  let tefVariation := threatEventFrequency s * ((4 # 5) + r1 * (2 # 5)) in
  let* r2 := Math_random in
  let suscVariation := susceptibility s * ((4 # 5) + r2 * (2 # 5)) in
  let* r3 := Math_random in
  let primaryVariation :=
    calculatePrimaryLoss s * ((4 # 5) + r3 * (2 # 5)) in
  let* r4 := Math_random in
  let secondaryVariation :=
    calculateSecondaryLoss s * ((4 # 5) + r4 * (2 # 5)) in
  let* r5 := Math_random in
  let slefVariation := slef s * ((4 # 5) + r5 * (2 # 5)) in
  let lef := tefVariation * (suscVariation / 100) in
  let slee := primaryVariation + (secondaryVariation * (slefVariation / 100)) in
  let ale := lef * slee in
  ret ale.

(** The samples of [runMonteCarloSimulation] before they are sorted. *)
Definition samples (s : RiskScenario) (simulations : nat) : Rand (list Q) :=
  pushLoop simulations (iteration s) [].

(** [runMonteCarloSimulation]: the samples, [sort((a, b) => b - a)]. *)
Definition runMonteCarloSimulation (s : RiskScenario) (simulations : nat)
  : Rand (list Q) :=
  let* results := samples s simulations in
  ret (Array_sort descending results).

(** The figures of the detail view: [ale] from the point estimate, the
    percentiles read off the sorted simulation results. *)
Record Summary := mkSummary {
  ale : Q;
  p50 : option Q;
  p90 : option Q;
  p99 : option Q
}.

Definition percentilesOf (s : RiskScenario) (results : list Q) : Summary :=
  let n := inject_Z (Z.of_nat (length results)) in
  {| ale := calculateALE s;
     p50 := nth_error results (floor_index (n * (1 # 2)));
     p90 := nth_error results (floor_index (n * (1 # 10)));
     p99 := nth_error results (floor_index (n * (1 # 100))) |}.

Definition summary (s : RiskScenario) (simulations : nat) : Rand Summary :=
  let* results := runMonteCarloSimulation s simulations in
  ret (percentilesOf s results).

End ScenarioDetail.

(** ** components/RangeInput.tsx, components/RangeEstimationInput.tsx and
    components/ScenarioCreation.tsx *)

Record Percentiles := mkPercentiles { P10 : Q; P50 : Q; P90 : Q }.

Module RangeInput.


End RangeInput.

Module RangeEstimationInput.

Record Validation := mkValidation {
  errors : list text;
  warnings : list text
}.

(** [validateRange]: the errors and warnings pushed, in order. *)
Definition validateRange (p10 p50 p90 : Q) (isProbability : bool)
    (min max : option Q) : Validation :=
  let monotonicity :=
    (if Qgtb p10 p50
     then [Lit "10th percentile must be ≤ 50th percentile"] else [])
    ++ (if Qgtb p50 p90
        then [Lit "50th percentile must be ≤ 90th percentile"] else []) in
  let probabilityErrors :=
    if isProbability then
      (if Qgtb 0 p10 || Qgtb 0 p50 || Qgtb 0 p90
       then [Lit "Probabilities must be ≥ 0%"] else [])
      ++ (if Qgtb p10 100 || Qgtb p50 100 || Qgtb p90 100
          then [Lit "Probabilities must be ≤ 100%"] else [])
    else [] in
  let probabilityWarnings :=
    if isProbability && Qeq_bool p90 100
    then [Lit "Upper bound at 100% implies certainty—consider ≤99% unless you have strong evidence"]
    else [] in
  let bounds :=
    (match min with
     | Some m => if Qgtb m p10
                 then [Cat (Lit "10th percentile must be at least ") (Num m)]
                 else []
     | None => []
     end)
    ++ (match max with
        | Some m => if Qgtb p90 m
                    then [Cat (Lit "90th percentile must be at most ") (Num m)]
                    else []
        | None => []
        end) in
  {| errors := monotonicity ++ probabilityErrors ++ bounds;
     warnings := probabilityWarnings |}.

(** [isValid = validationErrors.length === 0 && p10 >= 0 && p50 >= 0 &&
    p90 >= 0]. *)
Definition isValid (p10 p50 p90 : Q) (isProbability : bool)
    (min max : option Q) : bool :=
  Nat.eqb (length (errors (validateRange p10 p50 p90 isProbability min max))) 0
  && Qle_bool 0 p10 && Qle_bool 0 p50 && Qle_bool 0 p90.

End RangeEstimationInput.

Module ScenarioCreation.

Record FormData := mkFormData {
  tefP10 : Q; tefP50 : Q; tefP90 : Q;
  susceptibilityP10 : Q; susceptibilityP50 : Q; susceptibilityP90 : Q
}.

(** [isStepComplete('lef')]. *)
Definition isStepComplete_lef (formData : FormData) : bool :=
  Qgtb (tefP50 formData) 0 &&
  Qgtb (susceptibilityP50 formData) 0 &&
  Qle_bool 0 (tefP10 formData) &&
  Qgtb (tefP90 formData) 0 &&
  Qle_bool 0 (susceptibilityP10 formData) &&
  Qgtb (susceptibilityP90 formData) 0 &&
  Qle_bool (tefP10 formData) (tefP50 formData) &&
  Qle_bool (tefP50 formData) (tefP90 formData) &&
  Qle_bool (susceptibilityP10 formData) (susceptibilityP50 formData) &&
  Qle_bool (susceptibilityP50 formData) (susceptibilityP90 formData).

End ScenarioCreation.

(** ** The logit perturbation of components/SensitivityAnalysis.tsx

    [Math.log], [Math.exp] and a division by [100 - p] meet the special
    values of the number format, so this part is embedded over the reals
    extended with [NaN], [+Infinity] and [-Infinity]; finite results are
    exact (no rounding, no overflow).  A finite zero stands for [+0], the
    only zero that [100 - p], [pct / 100] and the literals produce here. *)

Module Logit.

Local Open Scope R_scope.

Inductive num :=
| NaN
| PosInf
| NegInf
| Fin (r : R).

Definition neg (a : num) : num :=
  match a with
  | NaN => NaN
  | PosInf => NegInf
  | NegInf => PosInf
  | Fin r => Fin (- r)
  end.

Definition add (a b : num) : num :=
  match a, b with
  | NaN, _ | _, NaN => NaN
  | PosInf, NegInf | NegInf, PosInf => NaN
  | PosInf, _ | _, PosInf => PosInf
  | NegInf, _ | _, NegInf => NegInf
  | Fin x, Fin y => Fin (x + y)
  end.

Definition sub (a b : num) : num := add a (neg b).

(** An infinity times a finite number: the sign rule, and [NaN] at zero. *)
Definition scale_inf (inf : num) (y : R) : num :=
  if Rlt_dec 0 y then inf
  else if Rlt_dec y 0 then neg inf
  else NaN.

Definition mul (a b : num) : num :=
  match a, b with
  | NaN, _ | _, NaN => NaN
  | Fin x, Fin y => Fin (x * y)
  | Fin x, inf => scale_inf inf x
  | inf, Fin y => scale_inf inf y
  | PosInf, PosInf | NegInf, NegInf => PosInf
  | PosInf, NegInf | NegInf, PosInf => NegInf
  end.

Definition div (a b : num) : num :=
  match a, b with
  | NaN, _ | _, NaN => NaN
  | Fin x, Fin y =>
      if Req_dec_T y 0
      then if Rlt_dec 0 x then PosInf
           else if Rlt_dec x 0 then NegInf
           else NaN
      else Fin (x / y)
  | Fin _, _ => Fin 0
  | inf, Fin y => if Rlt_dec y 0 then neg inf else inf
  | _, _ => NaN
  end.

Definition Math_log (a : num) : num :=
  match a with
  | NaN | NegInf => NaN
  | PosInf => PosInf
  | Fin x => if Rlt_dec 0 x then Fin (ln x)
             else if Rlt_dec x 0 then NaN
             else NegInf
  end.

Definition Math_exp (a : num) : num :=
  match a with
  | NaN => NaN
  | PosInf => PosInf
  | NegInf => Fin 0
  | Fin x => Fin (exp x)
  end.

Definition Math_min (a b : num) : num :=
  match a, b with
  | NaN, _ | _, NaN => NaN
  | NegInf, _ | _, NegInf => NegInf
  | PosInf, c | c, PosInf => c
  | Fin x, Fin y => Fin (Rmin x y)
  end.

Definition Math_max (a b : num) : num :=
  match a, b with
  | NaN, _ | _, NaN => NaN
  | PosInf, _ | _, PosInf => PosInf
  | NegInf, c | c, NegInf => c
  | Fin x, Fin y => Fin (Rmax x y)
  end.

Definition logit (p : num) : num := Math_log (div p (sub (Fin 100) p)).

Definition invLogit (x : num) : num :=
  div (Fin 100) (add (Fin 1) (Math_exp (neg x))).

Inductive AnalysisMode := local | global.

Import SensitivityAnalysis.

(** [applyVariation(factor, pct)]: [scenario] and [testScenario] give the
    value each stores for a factor. *)
Definition applyVariation (mode : AnalysisMode)
    (scenario testScenario : FAIRFactor -> num)
    (factor : FAIRFactor) (pct : num) : num :=
  let isPercentage :=
    match factor with
    | susceptibility_ | slef_ => true
    | _ => false
    end in
  match isPercentage, mode with
  | true, local =>
      let baseline :=
        match factor with
        | susceptibility_ => scenario susceptibility_
        | _ => scenario slef_
        end in
      let logitBase := logit baseline in
      let logitVar := mul logitBase (div pct (Fin 100)) in
      let newValue :=
        Math_max (Fin (1 / 10)) (Math_min (Fin (999 / 10)) (invLogit logitVar)) in
      newValue
  | _, _ =>
      let baseline := testScenario factor in
      mul baseline (div pct (Fin 100))
  end.

(** [percentage = rangeMin + (i * increment)] at step [i] of the scan,
    with [steps = 25]. *)
Definition percentageAt (rangeMin rangeMax : num) (i : nat) : num :=
  let steps := Fin 25 in
  let increment := div (sub rangeMax rangeMin) steps in
  add rangeMin (mul (Fin (INR i)) increment).

(** The value a scenario stores for a factor. *)
Definition factorValue (s : RiskScenario) (factor : FAIRFactor) : num :=
  Fin (Q2R match factor with
           | threatEventFrequency_ => threatEventFrequency s
           | susceptibility_ => susceptibility s
           | productivity_ => productivity s
           | response_ => response s
           | replacement_ => replacement s
           | fines_ => fines s
           | competitiveAdvantage_ => competitiveAdvantage s
           | reputation_ => reputation s
           | slef_ => slef s
           end).

(** A number strictly between 0 and 100. *)
Definition inside_0_100 (a : num) : Prop :=
  match a with
  | Fin v => 0 < v < 100
  | _ => False
  end.

End Logit.

(** ** The event-count draw of the scenario sampler *)

Module RiskService.

Local Open Scope R_scope.


End RiskService.


(** ** The specification's own words, and sample inputs *)

(** The ALE and LEF of one scenario, as the portfolio takes them. *)
Definition scenarioALE (s : RiskScenario) : Q :=
  UseFairCalculation.ale (UseFairCalculation.calculateClientSide s).
Definition scenarioLEF (s : RiskScenario) : Q :=
  UseFairCalculation.lef (UseFairCalculation.calculateClientSide s).
Definition scenarioLM (s : RiskScenario) : Q :=
  UseFairCalculation.slee (UseFairCalculation.calculateClientSide s).

(** The ratio [max(ALE_i) / Σ ALE_i] of the concentration metric, which has
    no value when the sum is zero. *)
Definition ratio_max_over_sum (ales : list Q) : option Q :=
  match Dashboard.Math_max ales with
  | Some m => if Qeq_bool (Qsum ales) 0 then None else Some (m / Qsum ales)
  | None => None
  end.


(** [{ ...scenario, threatEventFrequency: v }]. *)
Definition with_threatEventFrequency (s : RiskScenario) (v : Q) : RiskScenario :=
  {| id := id s;
     threatEventFrequency := v;
     susceptibility := susceptibility s;
     productivity := productivity s;
     response := response s;
     replacement := replacement s;
     fines := fines s;
     competitiveAdvantage := competitiveAdvantage s;
     reputation := reputation s;
     slef := slef s |}.

(** The baseline loss magnitude of the sensitivity analysis. *)
Definition baselineLM (s : RiskScenario) : Q :=
  SensitivityAnalysis.calculateLM
    (SensitivityAnalysis.calculatePrimaryLoss s)
    (SensitivityAnalysis.calculateSecondaryLoss s) (slef s).

(** A triple is monotone when [p10 <= p50 <= p90]. *)
Definition monotone (t : Percentiles) : Prop :=
  P10 t <= P50 t /\ P50 t <= P90 t.

(** All six loss forms of a scenario are zero. *)
Definition zero_loss (s : RiskScenario) : Prop :=
  productivity s == 0 /\ response s == 0 /\ replacement s == 0 /\
  fines s == 0 /\ competitiveAdvantage s == 0 /\ reputation s == 0.

(** No factor of a scenario is negative. *)
Definition nonnegative_factors (s : RiskScenario) : Prop :=
  0 <= threatEventFrequency s /\ 0 <= susceptibility s /\
  0 <= productivity s /\ 0 <= response s /\ 0 <= replacement s /\
  0 <= fines s /\ 0 <= competitiveAdvantage s /\ 0 <= reputation s /\
  0 <= slef s.

(** A sample lies between 0.4096 and 2.0736 times [ale]. *)
Definition within_band (ale x : Q) : Prop :=
  (4096 # 10000) * ale <= x /\ x <= (20736 # 10000) * ale.

(** The first scenario of the application's initial state. *)
Definition dataBreach : RiskScenario :=
  {| id := "1";
     threatEventFrequency := 5 # 2;
     susceptibility := 35;
     productivity := 400000;
     response := 250000;
     replacement := 100000;
     fines := 500000;
     competitiveAdvantage := 150000;
     reputation := 200000;
     slef := 65 |}.

(** A scenario whose threat event frequency is zero. *)
Definition dormant : RiskScenario :=
  {| id := "2";
     threatEventFrequency := 0;
     susceptibility := 30;
     productivity := 100000;
     response := 50000;
     replacement := 0;
     fines := 0;
     competitiveAdvantage := 0;
     reputation := 0;
     slef := 35 |}.

(** A scenario whose secondary losses never occur: SLEF is 0%. *)
Definition ungated : RiskScenario :=
  {| id := "4";
     threatEventFrequency := 3;
     susceptibility := 30;
     productivity := 100000;
     response := 50000;
     replacement := 0;
     fines := 20000;
     competitiveAdvantage := 0;
     reputation := 0;
     slef := 0 |}.

(** A scenario with no loss in any of the six forms. *)
Definition lossless : RiskScenario :=
  {| id := "3";
     threatEventFrequency := 12;
     susceptibility := 80;
     productivity := 0;
     response := 0;
     replacement := 0;
     fines := 0;
     competitiveAdvantage := 0;
     reputation := 0;
     slef := 50 |}.

(** A generator that always returns one half. *)
Definition always_half : nat -> Q := fun _ => 1 # 2.

(** ** Further parts of the front end *)

(** [x / y] when the quotient is a finite number; [None] when [y] is zero
    (the quotient is then [NaN] or an infinity). *)
Definition finite_div (x y : Q) : option Q :=
  if Qeq_bool y 0 then None else Some (x / y).

(** Arithmetic on results that may not be finite numbers. *)
Definition lift2 (f : Q -> Q -> option Q) (a b : option Q) : option Q :=
  match a, b with
  | Some x, Some y => f x y
  | _, _ => None
  end.

(** [x < y] on numbers. *)
Definition Qltb (x y : Q) : bool := negb (Qle_bool y x).

(** [Math.round]: the nearest integer, halves going up. *)
Definition Math_round (x : Q) : Z := Qfloor (x + (1 # 2)).

(** [array.sort(compareFn)] on any elements: the same stable sort as
    [Array_sort]. *)
Fixpoint sort_insert_by {A} (compareFn : A -> A -> Q) (x : A) (l : list A)
  : list A :=
  match l with
  | [] => [x]
  | y :: t => if Qle_bool (compareFn x y) 0 then x :: y :: t
              else y :: sort_insert_by compareFn x t
  end.

Definition Array_sort_by {A} (compareFn : A -> A -> Q) (l : list A) : list A :=
  fold_right (sort_insert_by compareFn) [] l.

(** *** components/SensitivityAnalysis.tsx: elasticity, variance shares and
    the target search *)

Module SensitivityTools.

Import SensitivityAnalysis.

#[global] Instance FAIRFactor_eq_dec : EqDecision FAIRFactor.
Proof. solve_decision. Defined.

(** [scenario[factor]]. *)
Definition factorOf (s : RiskScenario) (factor : FAIRFactor) : Q :=
  match factor with
  | threatEventFrequency_ => threatEventFrequency s
  | susceptibility_ => susceptibility s
  | productivity_ => productivity s
  | response_ => response s
  | replacement_ => replacement s
  | fines_ => fines s
  | competitiveAdvantage_ => competitiveAdvantage s
  | reputation_ => reputation s
  | slef_ => slef s
  end.

(** [{ ...scenario }] with [factor] set to [v]. *)
Definition withFactor (s : RiskScenario) (factor : FAIRFactor) (v : Q)
  : RiskScenario :=
  let pick g := if decide (factor = g) then v else factorOf s g in
  {| id := id s;
     threatEventFrequency := pick threatEventFrequency_;
     susceptibility := pick susceptibility_;
     productivity := pick productivity_;
     response := pick response_;
     replacement := pick replacement_;
     fines := pick fines_;
     competitiveAdvantage := pick competitiveAdvantage_;
     reputation := pick reputation_;
     slef := pick slef_ |}.

Record Elasticity := mkElasticity {
  elasticity : option Q;
  slope : option Q
}.

(** [calculateElasticity]: a forward perturbation of 1% of the selected
    factor. *)
Definition calculateElasticity (scenario : RiskScenario)
    (selectedFactor : FAIRFactor) : Elasticity :=
  let baselineLEF :=
    calculateLEF (threatEventFrequency scenario) (susceptibility scenario) in
  let baselineSLEE :=
    calculateLM (calculatePrimaryLoss scenario)
      (calculateSecondaryLoss scenario) (slef scenario) in
  let baselineALE := calculateALE baselineLEF baselineSLEE in
  let baseValue := factorOf scenario selectedFactor in
  let delta := baseValue * (1 # 100) in
  let testScenario := withFactor scenario selectedFactor (baseValue + delta) in
  let newLEF :=
    calculateLEF (threatEventFrequency testScenario)
      (susceptibility testScenario) in
  let newLM :=
    calculateLM (calculatePrimaryLoss testScenario)
      (calculateSecondaryLoss testScenario) (slef testScenario) in
  let newALE := calculateALE newLEF newLM in
  {| elasticity :=
       lift2 finite_div
         (finite_div (newALE - baselineALE) baselineALE)
         (finite_div delta baseValue);
     slope := finite_div (newALE - baselineALE) delta |}.









End SensitivityTools.


(** [100 / (1 + Math.exp(-x))] on a finite [x]: the value of [invLogit]
    before the clamp. *)
Definition sigmoid (x : R) : R := (100 / (1 + exp (- x)))%R.

(** *** components/ScenarioDetail.tsx: the loss exceedance curve *)

Module LossExceedance.

Record LecPoint := mkLecPoint {
  probability : text;
  loss : Z
}.

(** The loop [for (let i = 0; i < results.length; i += step)] of
    [generateLEC], from index [i] on.  The loop has no bound of its own:
    [fuel] counts the passes allowed, and [None] says they did not
    suffice. *)
Fixpoint lecLoop (fuel : nat) (results : list Q) (step i : nat)
    (lecData : list LecPoint) : option (list LecPoint) :=
  match fuel with
  | O => None
  | S fuel' =>
      if (i <? length results)%nat then
        let exceedanceProbability :=
          (inject_Z (Z.of_nat i) / inject_Z (Z.of_nat (length results)))
          * 100 in
        lecLoop fuel' results step (i + step)
          (lecData ++ [ {| probability := Fixed exceedanceProbability 1;
                           loss := Math_round (nth i results 0) |} ])
      else Some lecData
  end.

(** The body of [generateLEC] on the sorted results:
    [step = Math.floor(results.length / 50)]. *)
Definition lecOf (fuel : nat) (results : list Q) : option (list LecPoint) :=
  lecLoop fuel results (length results / 50) 0 [].

Definition generateLEC (s : RiskScenario) (simulations fuel : nat)
  : Rand (option (list LecPoint)) :=
  let* results := ScenarioDetail.runMonteCarloSimulation s simulations in
  ret (lecOf fuel results).

End LossExceedance.

(** *** components/AggregatedMetrics.tsx: the scenario named on the
    concentration card *)

(** [scenarios.find(s => s.id === portfolioMetrics.top_scenario_id)]. *)
Definition topScenario (scenarios : list RiskScenario)
    (portfolioMetrics : Dashboard.PortfolioMetrics) : option RiskScenario :=
  find (fun s => String.eqb (id s)
                   (Dashboard.top_scenario_id portfolioMetrics))
       scenarios.

(** *** components/BenchmarkSuggestions.tsx: the range slider *)

Module RangeSlider.

(** The handle being dragged: ['p10' | 'p50' | 'p90']. *)
Inductive Handle := p10_ | p50_ | p90_.

(** [sliderRef.current.getBoundingClientRect()], its [left] and [width]. *)
Record Rect := mkRect { left : Q; width : Q }.

(** [Math.max(0, Math.min(1, (clientX - rect.left) / rect.width))].  A zero
    width makes the quotient an infinity, which the clamp brings back to
    [0] or [1], or [NaN] when the numerator is zero too; [None] is
    [NaN]. *)
Definition percentOf (rect : Rect) (clientX : Q) : option Q :=
  let d := clientX - left rect in
  if Qeq_bool (width rect) 0 then
    if Qeq_bool d 0 then None
    else if Qgtb d 0 then Some 1 else Some 0
  else Some (Qmax 0 (Qmin 1 (d / width rect))).

(** [getValueFromPosition]; without a mounted slider the answer is [p50].
    A zero [step] gives [Math.round(±Infinity) * 0] or [NaN * 0], both
    [NaN]: [None]. *)
Definition getValueFromPosition (sliderRef : option Rect)
    (p50 min max step clientX : Q) : option Q :=
  match sliderRef with
  | None => Some p50
  | Some rect =>
      match percentOf rect clientX with
      | None => None
      | Some percent =>
          let value := min + percent * (max - min) in
          if Qeq_bool step 0 then None
          else Some (inject_Z (Math_round (value / step)) * step)
      end
  end.

(** The triple [handleMouseMove] passes to [onChange] for a finite
    [value]. *)
Definition moveHandle (activeHandle : Handle) (value : Q)
    (r : Percentiles) : Percentiles :=
  match activeHandle with
  | p10_ => {| P10 := Qmin value (P50 r); P50 := P50 r; P90 := P90 r |}
  | p50_ => {| P10 := P10 r;
               P50 := Qmax (P10 r) (Qmin value (P90 r));
               P90 := P90 r |}
  | p90_ => {| P10 := P10 r; P50 := P50 r; P90 := Qmax value (P50 r) |}
  end.

(** [handleMouseMove]: [None] when the value read off the pointer is
    [NaN]. *)
Definition handleMouseMove (activeHandle : Handle) (sliderRef : option Rect)
    (min max step clientX : Q) (r : Percentiles) : option Percentiles :=
  option_map (fun value => moveHandle activeHandle value r)
    (getValueFromPosition sliderRef (P50 r) min max step clientX).

End RangeSlider.

(** *** components/RangeInput.tsx: the range whisker *)

Module RangeWhisker.

(** [p50Position]: where the median tick sits on the whisker, in percent. *)
Definition p50Position (p10 p50 p90 : Q) : Q :=
  let range := p90 - p10 in
  if Qgtb range 0 then ((p50 - p10) / range) * 100 else 50.

Inductive Level := Low | Med | High.

(** [uncertaintyLevel].  With a positive range and a zero median the
    uncertainty is [+Infinity], neither below 1 nor below 3. *)
Definition uncertaintyLevel (p10 p50 p90 : Q) : Level :=
  let range := p90 - p10 in
  if Qgtb range 0 then
    if Qeq_bool p50 0 then High
    else
      let uncertainty := (p90 - p10) / p50 in
      if Qltb uncertainty 1 then Low
      else if Qltb uncertainty 3 then Med else High
  else Low.

End RangeWhisker.

(** *** hooks/useFairCalculation.ts: the request sent to the risk service *)

Module CalculationRequest.

(** The properties read through [(scenario as any)]: numbers by property
    name ([tefP10], ..., [slefP90], [pZero]), and the three settings of the
    TEF model.  A property that is not stored is [undefined]. *)
Record Loose := mkLoose {
  numbers : gmap string Q;
  tefModel : option string;
  tefDecompose : option bool;
  zeroInflation : option bool
}.

(** [x || d] on a number that may be [undefined]. *)
Definition or_else (x : option Q) (d : Q) : Q :=
  match x with
  | Some v => if Qeq_bool v 0 then d else v
  | None => d
  end.

Record TefInput := mkTefInput {
  percentiles : Percentiles;
  model : string;
  decompose : option bool;
  zero_inflation : option bool;
  p_zero : option Q
}.

Record LossForms := mkLossForms {
  lf_productivity : option Percentiles;
  lf_response : option Percentiles;
  lf_replacement : option Percentiles;
  lf_fines : option Percentiles;
  lf_competitive_advantage : option Percentiles;
  lf_reputation : option Percentiles
}.

Record FAIRCalculationRequest := mkRequest {
  r_tef : TefInput;
  r_susceptibility : Percentiles;
  r_loss_forms : LossForms;
  r_slef : option Percentiles;
  time_horizon_years : Q;
  currency : string;
  n_simulations : Z
}.

(** [x ? range : undefined] on a number [x]. *)
Definition when_truthy (x : Q) (range : Percentiles) : option Percentiles :=
  if Qeq_bool x 0 then None else Some range.

Definition scenarioToCalculationRequest (scenario : RiskScenario)
    (loose : Loose) (useRanges : bool) : FAIRCalculationRequest :=
  let any k := numbers loose !! k in
  if useRanges then
    {| r_tef :=
         {| percentiles :=
              {| P10 := or_else (any "tefP10"%string)
                          (threatEventFrequency scenario * (1 # 2));
                 P50 := or_else (any "tefP50"%string)
                          (threatEventFrequency scenario);
                 P90 := or_else (any "tefP90"%string)
                          (threatEventFrequency scenario * 2) |};
            model := match tefModel loose with
                     | Some m => if String.eqb m "" then "poisson"%string
                                 else m
                     | None => "poisson"%string
                     end;
            decompose := Some (match tefDecompose loose with
                               | Some b => b
                               | None => false
                               end);
            zero_inflation := Some (match zeroInflation loose with
                                    | Some b => b
                                    | None => false
                                    end);
            p_zero := Some (or_else (any "pZero"%string) 0) |};
       r_susceptibility :=
         {| P10 := or_else (any "susceptibilityP10"%string)
                     (susceptibility scenario * (1 # 2));
            P50 := or_else (any "susceptibilityP50"%string)
                     (susceptibility scenario);
            P90 := or_else (any "susceptibilityP90"%string)
                     (Qmin 100 (susceptibility scenario * (3 # 2))) |};
       r_loss_forms :=
         {| lf_productivity :=
              when_truthy (productivity scenario)
                {| P10 := or_else (any "productivityP10"%string)
                            (productivity scenario * (1 # 2));
                   P50 := or_else (any "productivityP50"%string)
                            (productivity scenario);
                   P90 := or_else (any "productivityP90"%string)
                            (productivity scenario * 2) |};
            lf_response :=
              when_truthy (response scenario)
                {| P10 := or_else (any "responseP10"%string)
                            (response scenario * (1 # 2));
                   P50 := or_else (any "responseP50"%string)
                            (response scenario);
                   P90 := or_else (any "responseP90"%string)
                            (response scenario * 2) |};
            lf_replacement :=
              when_truthy (replacement scenario)
                {| P10 := or_else (any "replacementP10"%string)
                            (replacement scenario * (1 # 2));
                   P50 := or_else (any "replacementP50"%string)
                            (replacement scenario);
                   P90 := or_else (any "replacementP90"%string)
                            (replacement scenario * 2) |};
            lf_fines :=
              when_truthy (fines scenario)
                {| P10 := or_else (any "finesP10"%string)
                            (fines scenario * (1 # 2));
                   P50 := or_else (any "finesP50"%string) (fines scenario);
                   P90 := or_else (any "finesP90"%string)
                            (fines scenario * 3) |};
            lf_competitive_advantage :=
              when_truthy (competitiveAdvantage scenario)
                {| P10 := or_else (any "competitiveAdvantageP10"%string)
                            (competitiveAdvantage scenario * (1 # 2));
                   P50 := or_else (any "competitiveAdvantageP50"%string)
                            (competitiveAdvantage scenario);
                   P90 := or_else (any "competitiveAdvantageP90"%string)
                            (competitiveAdvantage scenario * 3) |};
            lf_reputation :=
              when_truthy (reputation scenario)
                {| P10 := or_else (any "reputationP10"%string)
                            (reputation scenario * (1 # 2));
                   P50 := or_else (any "reputationP50"%string)
                            (reputation scenario);
                   P90 := or_else (any "reputationP90"%string)
                            (reputation scenario * 3) |} |};
       r_slef :=
         when_truthy (slef scenario)
           {| P10 := or_else (any "slefP10"%string) (slef scenario * (1 # 2));
              P50 := or_else (any "slefP50"%string) (slef scenario);
              P90 := or_else (any "slefP90"%string)
                       (Qmin 100 (slef scenario * (3 # 2))) |};
       time_horizon_years := 1;
       currency := "USD";
       n_simulations := 100000 |}
  else
    {| r_tef :=
         {| percentiles :=
              {| P10 := threatEventFrequency scenario * (1 # 2);
                 P50 := threatEventFrequency scenario;
                 P90 := threatEventFrequency scenario * 2 |};
            model := "poisson";
            decompose := None;
            zero_inflation := None;
            p_zero := None |};
       r_susceptibility :=
         {| P10 := susceptibility scenario * (7 # 10);
            P50 := susceptibility scenario;
            P90 := Qmin 100 (susceptibility scenario * (13 # 10)) |};
       r_loss_forms :=
         {| lf_productivity :=
              when_truthy (productivity scenario)
                {| P10 := productivity scenario * (6 # 10);
                   P50 := productivity scenario;
                   P90 := productivity scenario * (5 # 2) |};
            lf_response :=
              when_truthy (response scenario)
                {| P10 := response scenario * (6 # 10);
                   P50 := response scenario;
                   P90 := response scenario * (5 # 2) |};
            lf_replacement :=
              when_truthy (replacement scenario)
                {| P10 := replacement scenario * (6 # 10);
                   P50 := replacement scenario;
                   P90 := replacement scenario * (5 # 2) |};
            lf_fines :=
              when_truthy (fines scenario)
                {| P10 := fines scenario * (4 # 10);
                   P50 := fines scenario;
                   P90 := fines scenario * 4 |};
            lf_competitive_advantage :=
              when_truthy (competitiveAdvantage scenario)
                {| P10 := competitiveAdvantage scenario * (4 # 10);
                   P50 := competitiveAdvantage scenario;
                   P90 := competitiveAdvantage scenario * 4 |};
            lf_reputation :=
              when_truthy (reputation scenario)
                {| P10 := reputation scenario * (4 # 10);
                   P50 := reputation scenario;
                   P90 := reputation scenario * 4 |} |};
       r_slef :=
         when_truthy (slef scenario)
           {| P10 := slef scenario * (7 # 10);
              P50 := slef scenario;
              P90 := Qmin 100 (slef scenario * (13 # 10)) |};
       time_horizon_years := 1;
       currency := "USD";
       n_simulations := 100000 |}.

End CalculationRequest.

(** A range that may be absent is in order when it is absent or
    monotone. *)
Definition monotone_if_present (t : option Percentiles) : Prop :=
  match t with
  | Some r => monotone r
  | None => True
  end.

(** Every range of a request is in order. *)
Definition ordered_request (r : CalculationRequest.FAIRCalculationRequest)
  : Prop :=
  monotone (CalculationRequest.percentiles (CalculationRequest.r_tef r)) /\
  monotone (CalculationRequest.r_susceptibility r) /\
  monotone_if_present
    (CalculationRequest.lf_productivity (CalculationRequest.r_loss_forms r)) /\
  monotone_if_present
    (CalculationRequest.lf_response (CalculationRequest.r_loss_forms r)) /\
  monotone_if_present
    (CalculationRequest.lf_replacement (CalculationRequest.r_loss_forms r)) /\
  monotone_if_present
    (CalculationRequest.lf_fines (CalculationRequest.r_loss_forms r)) /\
  monotone_if_present
    (CalculationRequest.lf_competitive_advantage
       (CalculationRequest.r_loss_forms r)) /\
  monotone_if_present
    (CalculationRequest.lf_reputation (CalculationRequest.r_loss_forms r)) /\
  monotone_if_present (CalculationRequest.r_slef r).

(** No numeric property is stored beside the point estimates. *)
Definition point_estimates_only : CalculationRequest.Loose :=
  {| CalculationRequest.numbers := ∅;
     CalculationRequest.tefModel := None;
     CalculationRequest.tefDecompose := None;
     CalculationRequest.zeroInflation := None |}.

(** *** App.tsx: the list of scenarios *)

Module App.

(** [Omit<RiskScenario, 'id' | 'createdAt'>], its numeric fields. *)
Record NewScenario := mkNewScenario {
  threatEventFrequency : Q;
  susceptibility : Q;
  productivity : Q;
  response : Q;
  replacement : Q;
  fines : Q;
  competitiveAdvantage : Q;
  reputation : Q;
  slef : Q
}.

(** [handleCreateScenario]; [now] is [Date.now().toString()]. *)
Definition handleCreateScenario (scenarios : list RiskScenario)
    (now : string) (scenario : NewScenario) : list RiskScenario :=
  let newScenario :=
    mkScenario now (threatEventFrequency scenario) (susceptibility scenario)
      (productivity scenario) (response scenario) (replacement scenario)
      (fines scenario) (competitiveAdvantage scenario) (reputation scenario)
      (slef scenario) in
  scenarios ++ [newScenario].

Definition handleUpdateScenario (scenarios : list RiskScenario)
    (updatedScenario : RiskScenario) : list RiskScenario :=
  map (fun s => if String.eqb (id s) (id updatedScenario)
                then updatedScenario else s)
      scenarios.

Definition handleDeleteScenario (scenarios : list RiskScenario)
    (scenarioId : string) : list RiskScenario :=
  List.filter (fun s => negb (String.eqb (id s) scenarioId)) scenarios.

End App.

(** *** components/ScenarioCreation.tsx: the steps of the wizard and the
    scenario it submits *)

Module ScenarioWizard.

Import ScenarioCreation.

(** The [Step] ids. *)
Inductive Step :=
| metadata | asset | threat | vector | method | outcome
| assumptions | statement | lef | lm | review.

#[global] Instance Step_eq_dec : EqDecision Step.
Proof. solve_decision. Defined.

(** The ids of [steps], in order. *)
Definition steps : list Step :=
  [metadata; asset; threat; vector; method; outcome;
   assumptions; statement; lef; lm; review].

(** [array.findIndex(p)]: [-1] when no element satisfies [p]. *)
Fixpoint findIndex {A} (p : A -> bool) (l : list A) : Z :=
  match l with
  | [] => -1
  | x :: t => if p x then 0
              else let i := findIndex p t in
                   if (i <? 0)%Z then -1 else (i + 1)%Z
  end.

(** [steps[i].id]: reading [id] off a missing element throws, which is
    [None]. *)
Definition stepAt (i : Z) : option Step :=
  if (i <? 0)%Z then None else nth_error steps (Z.to_nat i).

(** [handleNext]: the step shown afterwards. *)
Definition handleNext (currentStep : Step) : option Step :=
  let stepIndex := findIndex (fun s => bool_decide (s = currentStep)) steps in
  if (stepIndex <? Z.of_nat (length steps) - 1)%Z
  then stepAt (stepIndex + 1)
  else Some currentStep.

(** [handleBack]. *)
Definition handleBack (currentStep : Step) : option Step :=
  let stepIndex := findIndex (fun s => bool_decide (s = currentStep)) steps in
  if (0 <? stepIndex)%Z
  then stepAt (stepIndex - 1)
  else Some currentStep.

(** The legacy point estimates of [formData]. *)
Record PointEstimates := mkPointEstimates {
  threatEventFrequency : Q;
  susceptibility : Q;
  productivity : Q;
  response : Q;
  replacement : Q;
  fines : Q;
  competitiveAdvantage : Q;
  reputation : Q;
  slef : Q
}.

Definition calculateLEF (formData : FormData) : Q :=
  tefP50 formData * (susceptibilityP50 formData / 100).

Definition calculatePrimaryLoss (legacy : PointEstimates) : Q :=
  productivity legacy + response legacy + replacement legacy.

Definition calculateSecondaryLoss (legacy : PointEstimates) : Q :=
  fines legacy + competitiveAdvantage legacy + reputation legacy.

Definition calculateLM (legacy : PointEstimates) : Q :=
  let primaryLoss := calculatePrimaryLoss legacy in
  let secondaryLoss := calculateSecondaryLoss legacy in
  let slefProbability := slef legacy / 100 in
  primaryLoss + secondaryLoss * slefProbability.

Definition calculateALE (formData : FormData) (legacy : PointEstimates) : Q :=
  calculateLEF formData * calculateLM legacy.

(** [isStepComplete('lm')]. *)
Definition isStepComplete_lm (legacy : PointEstimates) : bool :=
  Qgtb (calculateLM legacy) 0.

(** [handleSubmit]: what [onCreateScenario] is called with. *)
Definition handleSubmit {A} (onCreateScenario : App.NewScenario -> A)
    (formData : FormData) (legacy : PointEstimates) : A :=
  let legacyTEF := tefP50 formData in
  let legacySusceptibility := susceptibilityP50 formData in
  onCreateScenario
    (App.mkNewScenario legacyTEF legacySusceptibility
       (productivity legacy) (response legacy) (replacement legacy)
       (fines legacy) (competitiveAdvantage legacy) (reputation legacy)
       (slef legacy)).

End ScenarioWizard.

(** The total ALE shown for a portfolio; [0] stands for the empty
    portfolio, for which the metrics are not computed. *)
Definition portfolioALE (scenarios : list RiskScenario) : Q :=
  match Dashboard.calculateClientSideMetrics scenarios with
  | Some pm => Dashboard.total_ale pm
  | None => 0
  end.

(** A form of the wizard with both frequency ranges filled in. *)
Definition sampleForm : ScenarioCreation.FormData :=
  {| ScenarioCreation.tefP10 := 1;
     ScenarioCreation.tefP50 := 5 # 2;
     ScenarioCreation.tefP90 := 6;
     ScenarioCreation.susceptibilityP10 := 20;
     ScenarioCreation.susceptibilityP50 := 35;
     ScenarioCreation.susceptibilityP90 := 60 |}.

(** Point estimates with a primary loss only. *)
Definition sampleEstimates : ScenarioWizard.PointEstimates :=
  {| ScenarioWizard.threatEventFrequency := 0;
     ScenarioWizard.susceptibility := 50;
     ScenarioWizard.productivity := 400000;
     ScenarioWizard.response := 0;
     ScenarioWizard.replacement := 0;
     ScenarioWizard.fines := 0;
     ScenarioWizard.competitiveAdvantage := 0;
     ScenarioWizard.reputation := 0;
     ScenarioWizard.slef := 50 |}.

(** *** components/LMStep.tsx: the frequency step and the magnitude step *)

(** One line of the instant checks. *)
Inductive Status := pass | fail.

Record Check := mkCheck { label : string; status : Status }.

(** [checks.every(c => c.status === 'pass')]. *)
Definition every_pass (checks : list Check) : bool :=
  forallb (fun c => match status c with pass => true | fail => false end)
    checks.

Module LEFStep.

Import ScenarioCreation.

Definition getOrderBoundsCheck (formData : FormData) : list Check :=
  [ if Qle_bool (tefP10 formData) (tefP50 formData)
       && Qle_bool (tefP50 formData) (tefP90 formData)
    then {| label := "TEF values are monotonic"; status := pass |}
    else {| label := "TEF values must be P10 ≤ P50 ≤ P90"; status := fail |};
    if Qle_bool (susceptibilityP10 formData) (susceptibilityP50 formData)
       && Qle_bool (susceptibilityP50 formData) (susceptibilityP90 formData)
    then {| label := "Susceptibility values are monotonic"; status := pass |}
    else {| label := "Susceptibility values must be P10 ≤ P50 ≤ P90";
            status := fail |};
    if Qle_bool 0 (susceptibilityP10 formData)
       && Qle_bool (susceptibilityP90 formData) 100
    then {| label := "Susceptibility within [0, 100]%"; status := pass |}
    else {| label := "Susceptibility must be within [0, 100]%";
            status := fail |} ].

Definition allChecksPass (formData : FormData) : bool :=
  every_pass (getOrderBoundsCheck formData).

(** The decomposition of TEF into contact frequency and probability of
    action, as [formData] stores it. *)
Record Decomposition := mkDecomposition {
  contactFreqP10 : Q; contactFreqP50 : Q; contactFreqP90 : Q;
  probActionP10 : Q; probActionP50 : Q; probActionP90 : Q
}.

Definition withTEF (formData : FormData) (p10 p50 p90 : Q) : FormData :=
  {| tefP10 := p10; tefP50 := p50; tefP90 := p90;
     susceptibilityP10 := susceptibilityP10 formData;
     susceptibilityP50 := susceptibilityP50 formData;
     susceptibilityP90 := susceptibilityP90 formData |}.

(** [onChange] of the contact frequency input: the new [formData]. *)
Definition contactFreq_onChange (d : Decomposition) (formData : FormData)
    (p10 p50 p90 : Q) : Decomposition * FormData :=
  let tefP10 := p10 * (probActionP10 d / 100) in
  let tefP50 := p50 * (probActionP50 d / 100) in
  let tefP90 := p90 * (probActionP90 d / 100) in
  ({| contactFreqP10 := p10; contactFreqP50 := p50; contactFreqP90 := p90;
      probActionP10 := probActionP10 d;
      probActionP50 := probActionP50 d;
      probActionP90 := probActionP90 d |},
   withTEF formData tefP10 tefP50 tefP90).

(** [onChange] of the probability of action input. *)
Definition probAction_onChange (d : Decomposition) (formData : FormData)
    (p10 p50 p90 : Q) : Decomposition * FormData :=
  let tefP10 := contactFreqP10 d * (p10 / 100) in
  let tefP50 := contactFreqP50 d * (p50 / 100) in
  let tefP90 := contactFreqP90 d * (p90 / 100) in
  ({| contactFreqP10 := contactFreqP10 d;
      contactFreqP50 := contactFreqP50 d;
      contactFreqP90 := contactFreqP90 d;
      probActionP10 := p10; probActionP50 := p50; probActionP90 := p90 |},
   withTEF formData tefP10 tefP50 tefP90).

End LEFStep.

Module LMStep.

(** The percentile named by the argument of the calculators:
    ['p10' | 'p50' | 'p90']. *)
Inductive Percentile := p10 | p50 | p90.

(** The ranges of the six loss forms and of SLEF in [formData]:
    [productivityP10], [productivityP50], [productivityP90] and so on, one
    triple for each. *)
Record FormData := mkFormData {
  productivity : Percentiles;
  response : Percentiles;
  replacement : Percentiles;
  fines : Percentiles;
  competitiveAdvantage : Percentiles;
  reputation : Percentiles;
  slef : Percentiles
}.

(** [formData[`name${suffix}`] as number || 0]. *)
Definition field (range : Percentiles) (percentile : Percentile) : Q :=
  or_zero (match percentile with
           | p10 => P10 range
           | p50 => P50 range
           | p90 => P90 range
           end).

Definition calculatePrimaryLoss (formData : FormData)
    (percentile : Percentile) : Q :=
  field (productivity formData) percentile
  + field (response formData) percentile
  + field (replacement formData) percentile.

Definition calculateSecondaryLoss (formData : FormData)
    (percentile : Percentile) : Q :=
  field (fines formData) percentile
  + field (competitiveAdvantage formData) percentile
  + field (reputation formData) percentile.

Definition calculateLossMagnitude (formData : FormData)
    (percentile : Percentile) : Q :=
  let primary := calculatePrimaryLoss formData percentile in
  let secondary := calculateSecondaryLoss formData percentile in
  let slefProb := field (slef formData) percentile / 100 in
  primary + (secondary * slefProb).

Definition getValidationChecks (formData : FormData) : list Check :=
  let hasAnyLoss :=
    Qgtb (P50 (productivity formData)) 0
    || Qgtb (P50 (response formData)) 0
    || Qgtb (P50 (replacement formData)) 0
    || Qgtb (P50 (fines formData)) 0
    || Qgtb (P50 (competitiveAdvantage formData)) 0
    || Qgtb (P50 (reputation formData)) 0 in
  let hasSecondaryLoss :=
    Qgtb (P50 (fines formData)) 0
    || Qgtb (P50 (competitiveAdvantage formData)) 0
    || Qgtb (P50 (reputation formData)) 0 in
  [ if hasAnyLoss
    then {| label := "At least one loss form estimated"; status := pass |}
    else {| label := "At least one loss form must be estimated";
            status := fail |} ]
  ++ (if hasSecondaryLoss then
        [ if Qgtb (P50 (slef formData)) 0
             && Qle_bool (P10 (slef formData)) (P50 (slef formData))
             && Qle_bool (P50 (slef formData)) (P90 (slef formData))
          then {| label := "SLEF properly estimated for secondary losses";
                  status := pass |}
          else {| label := "SLEF must be estimated when secondary losses exist";
                  status := fail |} ]
      else []).

Definition allChecksPass (formData : FormData) : bool :=
  every_pass (getValidationChecks formData).

End LMStep.

(** A range is usable when it is in order and starts at zero or above. *)
Definition usable (t : Percentiles) : Prop := 0 <= P10 t /\ monotone t.

(** A decomposition and a set of loss ranges used as samples. *)
Definition sampleDecomposition : LEFStep.Decomposition :=
  {| LEFStep.contactFreqP10 := 10; LEFStep.contactFreqP50 := 20;
     LEFStep.contactFreqP90 := 40;
     LEFStep.probActionP10 := 5; LEFStep.probActionP50 := 10;
     LEFStep.probActionP90 := 25 |}.

Definition sampleLosses : LMStep.FormData :=
  {| LMStep.productivity := {| P10 := 100000; P50 := 400000; P90 := 900000 |};
     LMStep.response := {| P10 := 0; P50 := 0; P90 := 0 |};
     LMStep.replacement := {| P10 := 0; P50 := 0; P90 := 0 |};
     LMStep.fines := {| P10 := 0; P50 := 500000; P90 := 2000000 |};
     LMStep.competitiveAdvantage := {| P10 := 0; P50 := 0; P90 := 0 |};
     LMStep.reputation := {| P10 := 0; P50 := 0; P90 := 0 |};
     LMStep.slef := {| P10 := 35; P50 := 65; P90 := 85 |} |}.

(** The three ranges of the frequency step, as triples. *)
Definition tefRange (formData : ScenarioCreation.FormData) : Percentiles :=
  {| P10 := ScenarioCreation.tefP10 formData;
     P50 := ScenarioCreation.tefP50 formData;
     P90 := ScenarioCreation.tefP90 formData |}.

Definition contactRange (d : LEFStep.Decomposition) : Percentiles :=
  {| P10 := LEFStep.contactFreqP10 d;
     P50 := LEFStep.contactFreqP50 d;
     P90 := LEFStep.contactFreqP90 d |}.

Definition probActionRange (d : LEFStep.Decomposition) : Percentiles :=
  {| P10 := LEFStep.probActionP10 d;
     P50 := LEFStep.probActionP50 d;
     P90 := LEFStep.probActionP90 d |}.

(** Each percentile of [a] is at most the same percentile of [b]. *)
Definition below (a b : Percentiles) : Prop :=
  P10 a <= P10 b /\ P50 a <= P50 b /\ P90 a <= P90 b.

(** All seven ranges of the magnitude step are usable. *)
Definition usable_losses (formData : LMStep.FormData) : Prop :=
  usable (LMStep.productivity formData) /\
  usable (LMStep.response formData) /\
  usable (LMStep.replacement formData) /\
  usable (LMStep.fines formData) /\
  usable (LMStep.competitiveAdvantage formData) /\
  usable (LMStep.reputation formData) /\
  usable (LMStep.slef formData).

(** *** components/SanityChecks.tsx *)

Module SanityChecks.

(** The warnings pushed on [checks], in order; each has [condition: true],
    so [activeChecks] is the same list. *)
Definition checks (scenario : RiskScenario) : list text :=
  let secondaryTotal :=
    fines scenario + competitiveAdvantage scenario + reputation scenario in
  let lef := threatEventFrequency scenario * (susceptibility scenario / 100) in
  let primaryTotal :=
    productivity scenario + response scenario + replacement scenario in
  (if Qgtb (slef scenario) 0 && Qeq_bool secondaryTotal 0
   then [Lit "SLEF is gated on but all secondary loss amounts are zero—is this intended?"]
   else [])
  ++ (if Qltb lef (1 # 10)
      then [Cat (Lit "Low-frequency scenario (LEF = ")
              (Cat (Fixed lef 3)
                 (Lit "/yr). Monte Carlo sampling may be sparse in the tail."))]
      else [])
  ++ (if Qgtb primaryTotal 0 && Qgtb secondaryTotal 0
         && Qeq_bool (slef scenario) 0
      then [Lit "You have secondary loss values but SLEF is 0%—secondary losses will never occur."]
      else [])
  ++ (if Qeq_bool (susceptibility scenario) 100
      then [Lit "Susceptibility is 100%—this means you have zero defensive capability. Is this realistic?"]
      else [])
  ++ (if Qeq_bool (threatEventFrequency scenario) 0
      then [Lit "Threat Event Frequency (TEF) is 0—no loss events will occur. Consider estimating a non-zero TEF."]
      else []).

(** The component renders nothing when no check is active. *)
Definition rendersNothing (scenario : RiskScenario) : bool :=
  Nat.eqb (length (checks scenario)) 0.

End SanityChecks.

(** *** components/DriverChart.tsx *)

Module DriverChart.

Inductive DriverType := primary | secondary.

Record Driver := mkDriver {
  name : string;
  value : Q;
  contribution : Q;
  type : DriverType
}.

(** [totalLM] of the chart. *)
Definition totalLM (scenario : RiskScenario) : Q :=
  let primaryLoss :=
    productivity scenario + response scenario + replacement scenario in
  let secondaryLoss :=
    fines scenario + competitiveAdvantage scenario + reputation scenario in
  let slefProbability := slef scenario / 100 in
  let expectedSecondaryLoss := secondaryLoss * slefProbability in
  primaryLoss + expectedSecondaryLoss.

(** [drivers]: the six forms with their share of [ale], those with a
    positive contribution, largest first.  A zero [totalLM] makes every
    contribution [NaN] or an infinity: [None]. *)
Definition drivers (scenario : RiskScenario) (ale : Q)
  : option (list Driver) :=
  let slefProbability := slef scenario / 100 in
  let totalLM := totalLM scenario in
  if Qeq_bool totalLM 0 then None
  else
    Some
      (Array_sort_by (fun a b => contribution b - contribution a)
         (List.filter (fun d => Qgtb (contribution d) 0)
            [ {| name := "Productivity Loss";
                 value := productivity scenario;
                 contribution := (productivity scenario / totalLM) * ale;
                 type := primary |};
              {| name := "Response Costs";
                 value := response scenario;
                 contribution := (response scenario / totalLM) * ale;
                 type := primary |};
              {| name := "Replacement Costs";
                 value := replacement scenario;
                 contribution := (replacement scenario / totalLM) * ale;
                 type := primary |};
              {| name := "Fines & Judgments";
                 value := fines scenario * slefProbability;
                 contribution :=
                   (fines scenario * slefProbability / totalLM) * ale;
                 type := secondary |};
              {| name := "Competitive Advantage";
                 value := competitiveAdvantage scenario * slefProbability;
                 contribution :=
                   (competitiveAdvantage scenario * slefProbability / totalLM)
                   * ale;
                 type := secondary |};
              {| name := "Reputation Damage";
                 value := reputation scenario * slefProbability;
                 contribution :=
                   (reputation scenario * slefProbability / totalLM) * ale;
                 type := secondary |} ])).

(** [percentage] of a bar: [(driver.contribution / ale) * 100]. *)
Definition percentage (driver : Driver) (ale : Q) : Q :=
  (contribution driver / ale) * 100.

End DriverChart.

(** *** components/BenchmarkComparison.tsx *)

Module BenchmarkComparison.

(** The ALE the chart computes for a scenario. *)
Definition aleOf (scenario : RiskScenario) : Q :=
  let lef := threatEventFrequency scenario * (susceptibility scenario / 100) in
  let primaryLoss :=
    productivity scenario + response scenario + replacement scenario in
  let secondaryLoss :=
    fines scenario + competitiveAdvantage scenario + reputation scenario in
  let slefProbability := slef scenario / 100 in
  let slee := primaryLoss + (secondaryLoss * slefProbability) in
  lef * slee.


End BenchmarkComparison.


(** *** components/RangeEstimationInput.tsx: thousand separators *)

Module NumberFormat.

Import Stdlib.Strings.Ascii.

(** The two characters the functions look for. *)
Definition comma : ascii := ","%char.
Definition dot : ascii := "."%char.

(** [\d] and [\w] of the regular expression. *)
Definition isDigit (c : Ascii.ascii) : bool :=
  let n := Ascii.nat_of_ascii c in (48 <=? n)%nat && (n <=? 57)%nat.

Definition isWord (c : Ascii.ascii) : bool :=
  let n := Ascii.nat_of_ascii c in
  isDigit c
  || ((65 <=? n)%nat && (n <=? 90)%nat)
  || ((97 <=? n)%nat && (n <=? 122)%nat)
  || (n =? 95)%nat.

(** [text.replace(/\B(?=(\d{3})+(?!\d))/g, ',')].  A comma goes in front of
    a character when the character before it is a word character ([\B],
    the character itself being a digit) and the run of digits starting
    there has a length that is a positive multiple of three (the
    lookahead).  [prevIsWord] tells about the character before the text;
    the second component is the length of the run of digits at the start of
    the text. *)
Fixpoint separate (prevIsWord : bool) (str : string) : string * nat :=
  match str with
  | EmptyString => (EmptyString, O)
  | String c rest =>
      let '(rest', run_rest) := separate (isWord c) rest in
      let run := if isDigit c then S run_rest else O in
      let out := String c rest' in
      (if prevIsWord && (0 <? run)%nat && (run mod 3 =? 0)%nat
       then String comma out else out,
       run)
  end.

(** [numStr.split('.')]: [parts[0]], and what follows it, from the first
    dot on, which [parts.join('.')] puts back unchanged. *)
Fixpoint splitAtDot (numStr : string) : string * string :=
  match numStr with
  | EmptyString => (EmptyString, EmptyString)
  | String c rest =>
      if Ascii.eqb c dot then (EmptyString, numStr)
      else let '(a, b) := splitAtDot rest in (String c a, b)
  end.

(** [formatNumber], on [String(num)]. *)
Definition formatNumber (numStr : string) : string :=
  let '(whole, fraction) := splitAtDot numStr in
  String.append (fst (separate false whole)) fraction.

(** [str.replace(/,/g, '')]. *)
Fixpoint stripCommas (str : string) : string :=
  match str with
  | EmptyString => EmptyString
  | String c rest =>
      if Ascii.eqb c comma then stripCommas rest
      else String c (stripCommas rest)
  end.

(** [parseNumber]; [Number] is the conversion of the language, [None] its
    [NaN]. *)
Definition parseNumber (Number : string -> option Q) (str : string)
  : option Q :=
  match str with
  | EmptyString => Some 0
  | _ => Number (stripCommas str)
  end.

End NumberFormat.

(** Every character of a string satisfies [p]. *)
Fixpoint allChars (p : Ascii.ascii -> bool) (s : string) : bool :=
  match s with
  | EmptyString => true
  | String c rest => p c && allChars p rest
  end.

Definition noComma (s : string) : bool :=
  allChars (fun c => negb (Ascii.eqb c NumberFormat.comma)) s.

Definition allDigits (s : string) : bool :=
  allChars NumberFormat.isDigit s.
(** * Properties *)

(** Linear and non-linear arithmetic over [Q]; the unqualified tactics are
    those of the reals. *)
Ltac qlra := Lqa.lra.
Ltac qnra := Lqa.nra.

(** ** Sums over the calculation table *)

Section CalcTable.

Import UseFairCalculation Dashboard.

Lemma buildCalc_snoc (l : list RiskScenario) (s : RiskScenario) :
  buildCalc (l ++ [s]) = <[ id s := entryOf s ]> (buildCalc l).
Proof. unfold buildCalc. now rewrite fold_left_app. Qed.

Lemma buildCalc_lookup_None (l : list RiskScenario) (k : string) :
  ~ In k (map id l) -> buildCalc l !! k = None.
Proof.
  induction l as [|s l IH] using rev_ind; intros Hk.
  - apply lookup_empty.
  - rewrite buildCalc_snoc. rewrite map_app, in_app_iff in Hk. simpl in Hk.
    rewrite lookup_insert_ne by (intros Heq; subst k; tauto).
    apply IH. tauto.
Qed.

Lemma buildCalc_lookup_Some (l : list RiskScenario) (s : RiskScenario) :
  List.NoDup (map id l) -> In s l -> buildCalc l !! id s = Some (entryOf s).
Proof.
  induction l as [|s' l IH] using rev_ind; intros Hnd Hin; [easy|].
  rewrite buildCalc_snoc.
  rewrite map_app in Hnd. simpl in Hnd.
  apply NoDup_remove in Hnd. rewrite app_nil_r in Hnd.
  destruct Hnd as [Hnd Hfresh].
  apply in_app_iff in Hin. destruct Hin as [Hin | [-> | []]].
  - rewrite lookup_insert_ne.
    + now apply IH.
    + intros Heq. apply Hfresh. rewrite Heq. now apply in_map.
  - apply lookup_insert_eq.
Qed.

Lemma reduceValues_empty (g : ScenarioCalculations -> Q) :
  reduceValues g ∅ = 0.
Proof. apply map_fold_empty. Qed.

Lemma reduceValues_insert (g : ScenarioCalculations -> Q)
    (m : gmap string ScenarioCalculations) (k : string)
    (c : ScenarioCalculations) :
  m !! k = None ->
  reduceValues g (<[ k := c ]> m) == reduceValues g m + g c.
Proof.
  intros Hk. unfold reduceValues.
  apply (map_fold_insert Qeq (fun _ c sum => sum + g c) 0 k c m); [| |exact Hk].
  - intros _ z x y Hxy. now rewrite Hxy.
  - intros. ring.
Qed.

Lemma Qsum_snoc (l : list Q) (x : Q) : Qsum (l ++ [x]) = Qsum l + x.
Proof. unfold Qsum. now rewrite fold_left_app. Qed.

(** With distinct ids, a sum over the values of the table is the sum over
    the scenarios. *)
Lemma reduceValues_buildCalc (g : ScenarioCalculations -> Q)
    (l : list RiskScenario) :
  List.NoDup (map id l) ->
  reduceValues g (buildCalc l) == Qsum (map (fun s => g (entryOf s)) l).
Proof.
  induction l as [|s l IH] using rev_ind; intros Hnd.
  - unfold buildCalc. simpl. now rewrite reduceValues_empty.
  - rewrite buildCalc_snoc, map_app. simpl. rewrite Qsum_snoc.
    rewrite map_app in Hnd. simpl in Hnd.
    apply NoDup_remove in Hnd. rewrite app_nil_r in Hnd.
    destruct Hnd as [Hnd Hfresh].
    rewrite reduceValues_insert by now apply buildCalc_lookup_None.
    now rewrite IH.
Qed.

Lemma calculateClientSideMetrics_Some (l : list RiskScenario) :
  l <> [] -> exists pm, calculateClientSideMetrics l = Some pm.
Proof.
  destruct l as [|s l]; [easy|]. intros _.
  unfold calculateClientSideMetrics. simpl. eauto.
Qed.

End CalcTable.

(** C1.  For scenarios with distinct ids, the metrics of the client-side
    portfolio aggregation have as [total_ale] the sum of the scenarios' ALE
    values and as [expected_events_per_year] the sum of their LEF values,
    whatever the number of scenarios; the computation has no correlation
    parameter.  Metrics are produced for every non-empty list. *)
Theorem C1_means_add (scenarios : list RiskScenario)
    (Hids : List.NoDup (map id scenarios)) :
  (scenarios <> [] ->
   exists pm, Dashboard.calculateClientSideMetrics scenarios = Some pm) /\
  (forall pm,
      Dashboard.calculateClientSideMetrics scenarios = Some pm ->
      Dashboard.total_ale pm == Qsum (map scenarioALE scenarios) /\
      Dashboard.expected_events_per_year pm
        == Qsum (map scenarioLEF scenarios)).
Proof.
  split; [apply calculateClientSideMetrics_Some|].
  intros pm Hpm.
  unfold Dashboard.calculateClientSideMetrics in Hpm.
  destruct (Dashboard.Math_max _); [|discriminate].
  injection Hpm as <-. simpl. split.
  - apply (reduceValues_buildCalc Dashboard.c_ale scenarios Hids).
  - apply (reduceValues_buildCalc Dashboard.c_lef scenarios Hids).
Qed.

Lemma distinct_ids_demo : List.NoDup (map id [dataBreach; dormant]).
Proof.
  simpl. constructor.
  - intros [H | []]. discriminate H.
  - constructor; [intros [] | constructor].
Defined.

Lemma C1_means_add_witness :
  List.NoDup (map id [dataBreach; dormant]) /\
  ([dataBreach; dormant] <> [] ->
   exists pm,
     Dashboard.calculateClientSideMetrics [dataBreach; dormant] = Some pm) /\
  (forall pm,
      Dashboard.calculateClientSideMetrics [dataBreach; dormant] = Some pm ->
      Dashboard.total_ale pm == Qsum (map scenarioALE [dataBreach; dormant]) /\
      Dashboard.expected_events_per_year pm
        == Qsum (map scenarioLEF [dataBreach; dormant])).
Proof.
  split; [exact distinct_ids_demo|].
  exact (C1_means_add [dataBreach; dormant] distinct_ids_demo).
Defined.

(** Distinct ids matter: a scenario listed twice under one id is counted
    once, the later entry overwriting the earlier one in the table. *)
Remark same_id_counted_once :
  exists pm,
    Dashboard.calculateClientSideMetrics [dataBreach; dataBreach] = Some pm /\
    Dashboard.total_ale pm == scenarioALE dataBreach /\
    ~ Dashboard.total_ale pm == Qsum (map scenarioALE [dataBreach; dataBreach]).
Proof.
  eexists. split; [reflexivity|]. split.
  - vm_compute. reflexivity.
  - intros H. vm_compute in H. discriminate H.
Qed.

(** ** Comparisons and small helpers *)

Lemma Qgtb_true (x y : Q) : Qgtb x y = true <-> y < x.
Proof.
  unfold Qgtb. rewrite negb_true_iff. split.
  - intros H. apply Qnot_le_lt. intros Hle.
    apply Qle_bool_iff in Hle. congruence.
  - intros H. destruct (Qle_bool x y) eqn:E; [|reflexivity].
    apply Qle_bool_iff in E. apply Qlt_not_le in H. contradiction.
Qed.

Lemma Qgtb_false (x y : Q) : Qgtb x y = false <-> x <= y.
Proof.
  unfold Qgtb. rewrite negb_false_iff. apply Qle_bool_iff.
Qed.

Lemma or_zero_eq (x : Q) : or_zero x == x.
Proof.
  unfold or_zero. destruct (Qeq_bool x 0) eqn:E; [|reflexivity].
  apply Qeq_bool_iff in E. now rewrite E.
Qed.

Section PortfolioFacts.

Import Dashboard.

Variable scenarios : list RiskScenario.
Hypothesis Hids : List.NoDup (map id scenarios).

Lemma totalLEF_eq :
  reduceValues c_lef (buildCalc scenarios) == Qsum (map scenarioLEF scenarios).
Proof. exact (reduceValues_buildCalc c_lef scenarios Hids). Qed.

Lemma totalALE_eq :
  reduceValues c_ale (buildCalc scenarios) == Qsum (map scenarioALE scenarios).
Proof. exact (reduceValues_buildCalc c_ale scenarios Hids). Qed.

Lemma weighted_eq :
  reduceValues (fun c => c_lef c * c_slee c) (buildCalc scenarios)
  == Qsum (map (fun s => scenarioLEF s * scenarioLM s) scenarios).
Proof.
  exact (reduceValues_buildCalc (fun c => c_lef c * c_slee c) scenarios Hids).
Qed.

Lemma aleOf_eq (s : RiskScenario) :
  In s scenarios -> aleOf (buildCalc scenarios) s == scenarioALE s.
Proof.
  intros Hin. unfold aleOf.
  rewrite (buildCalc_lookup_Some scenarios s Hids Hin).
  apply or_zero_eq.
Qed.

End PortfolioFacts.

(** C3, as the code has it.  For scenarios with distinct ids: when the LEF
    values sum to a positive number, [weighted_average_lm] is
    [Σ(LEF_i × LM_i) / Σ LEF_i]; when they sum to zero, the number stored in
    [weighted_average_lm] is [0], and the "Average Loss Magnitude" card
    shows the text N/A with the formula "undefined". *)
Theorem C3_weighted_average_lm (scenarios : list RiskScenario)
    (Hids : List.NoDup (map id scenarios)) :
  (scenarios <> [] ->
   exists pm, Dashboard.calculateClientSideMetrics scenarios = Some pm) /\
  (forall pm,
      Dashboard.calculateClientSideMetrics scenarios = Some pm ->
      (0 < Qsum (map scenarioLEF scenarios) ->
       Dashboard.weighted_average_lm pm ==
         Qsum (map (fun s => scenarioLEF s * scenarioLM s) scenarios)
         / Qsum (map scenarioLEF scenarios)) /\
      (Qsum (map scenarioLEF scenarios) == 0 ->
       Dashboard.weighted_average_lm pm == 0 /\
       forall topScenarioName,
         option_map AggregatedMetrics.value
           (AggregatedMetrics.averageLossMagnitudeCard pm topScenarioName)
         = Some (Lit "N/A") /\
         option_map AggregatedMetrics.formula
           (AggregatedMetrics.averageLossMagnitudeCard pm topScenarioName)
         = Some "undefined"%string)).
Proof.
  split; [apply calculateClientSideMetrics_Some|].
  intros pm Hpm.
  unfold Dashboard.calculateClientSideMetrics in Hpm.
  destruct (Dashboard.Math_max _); [|discriminate].
  injection Hpm as <-.
  pose proof (totalLEF_eq scenarios Hids) as HL.
  pose proof (weighted_eq scenarios Hids) as HW.
  split.
  - intros Hpos. simpl.
    destruct (Qgtb _ 0) eqn:E.
    + now rewrite HW, HL.
    + apply Qgtb_false in E. rewrite HL in E.
      apply Qlt_not_le in Hpos. contradiction.
  - intros Hzero. split.
    + simpl. destruct (Qgtb _ 0) eqn:E; [|reflexivity].
      apply Qgtb_true in E. rewrite HL, Hzero in E.
      apply Qlt_irrefl in E. contradiction.
    + intros name.
      unfold AggregatedMetrics.averageLossMagnitudeCard. simpl.
      unfold AggregatedMetrics.zeroLEF. simpl.
      assert (Hz : Qeq_bool (Dashboard.reduceValues Dashboard.c_lef
                               (Dashboard.buildCalc scenarios)) 0 = true).
      { apply Qeq_bool_iff. now rewrite HL. }
      now rewrite Hz.
Qed.

Lemma C3_weighted_average_lm_witness :
  List.NoDup (map id [dataBreach; dormant]) /\
  ([dataBreach; dormant] <> [] ->
   exists pm,
     Dashboard.calculateClientSideMetrics [dataBreach; dormant] = Some pm) /\
  (forall pm,
      Dashboard.calculateClientSideMetrics [dataBreach; dormant] = Some pm ->
      (0 < Qsum (map scenarioLEF [dataBreach; dormant]) ->
       Dashboard.weighted_average_lm pm ==
         Qsum (map (fun s => scenarioLEF s * scenarioLM s)
                 [dataBreach; dormant])
         / Qsum (map scenarioLEF [dataBreach; dormant])) /\
      (Qsum (map scenarioLEF [dataBreach; dormant]) == 0 ->
       Dashboard.weighted_average_lm pm == 0 /\
       forall topScenarioName,
         option_map AggregatedMetrics.value
           (AggregatedMetrics.averageLossMagnitudeCard pm topScenarioName)
         = Some (Lit "N/A") /\
         option_map AggregatedMetrics.formula
           (AggregatedMetrics.averageLossMagnitudeCard pm topScenarioName)
         = Some "undefined"%string)).
Proof.
  split; [exact distinct_ids_demo|].
  exact (C3_weighted_average_lm [dataBreach; dormant] distinct_ids_demo).
Defined.

(** C3 as worded fails on the portfolio of the one scenario [dormant], whose
    LEF is zero: the weighted average stored in the metrics is the number
    [0], and the text built by [copyFormulas] prints that number, with no
    N/A. *)
Lemma C3_counterexample :
  Qsum (map scenarioLEF [dormant]) == 0 /\
  option_map Dashboard.weighted_average_lm
    (Dashboard.calculateClientSideMetrics [dormant]) = Some 0 /\
  option_map AggregatedMetrics.copyFormulas_averageLM
    (Dashboard.calculateClientSideMetrics [dormant])
  = Some (Cat
            (Lit "Average LM (per event): $")
            (Cat
               (Fixed (0 / 1000) 0)
               (Lit "K"))).
Proof.
  split; [reflexivity|]. split; vm_compute; reflexivity.
Qed.

(** ** The largest scenario *)

Lemma fold_left_Qmax_ge (t : list Q) (x : Q) :
  x <= fold_left Qmax t x /\ forall a, In a t -> a <= fold_left Qmax t x.
Proof.
  revert x. induction t as [|y t IH]; intros x; simpl.
  - split; [apply Qle_refl | intros a []].
  - destruct (IH (Qmax x y)) as [H1 H2]. split.
    + eapply Qle_trans; [apply Q.le_max_l | exact H1].
    + intros a [<- | Ha].
      * eapply Qle_trans; [apply Q.le_max_r | exact H1].
      * now apply H2.
Qed.

Lemma fold_left_Qmax_In (t : list Q) (x : Q) : In (fold_left Qmax t x) (x :: t).
Proof.
  revert x. induction t as [|y t IH]; intros x; simpl.
  - now left.
  - destruct (IH (Qmax x y)) as [H | H].
    + assert (E : Qmax x y = x \/ Qmax x y = y)
        by (unfold Qmax, GenericMinMax.gmax; destruct (x ?= y); auto).
      simpl. rewrite <- H. destruct E as [E | E]; rewrite E; auto.
    + right. now right.
Qed.

Lemma Math_max_spec (l : list Q) (m : Q) :
  Dashboard.Math_max l = Some m ->
  In m l /\ forall a, In a l -> a <= m.
Proof.
  destruct l as [|x t]; simpl; [discriminate|].
  intros [= <-]. split.
  - apply fold_left_Qmax_In.
  - destruct (fold_left_Qmax_ge t x) as [H1 H2].
    intros a [<- | Ha]; [exact H1 | now apply H2].
Qed.

(** C9, as the code has it.  For a non-empty portfolio with distinct ids:
    some scenario [top] has the largest ALE, and when the ALE values sum to
    a positive number [top_scenario_share] is [ALE top / Σ ALE_i × 100], a
    percentage; when the sum is not positive, [top_scenario_share] is [0];
    the high-concentration flag is raised exactly when [top_scenario_share]
    exceeds [70]. *)
Theorem C9_top_scenario_share (scenarios : list RiskScenario)
    (Hne : scenarios <> [])
    (Hids : List.NoDup (map id scenarios)) :
  exists pm,
    Dashboard.calculateClientSideMetrics scenarios = Some pm /\
    (exists top,
       In top scenarios /\
       (forall s, In s scenarios -> scenarioALE s <= scenarioALE top) /\
       (0 < Qsum (map scenarioALE scenarios) ->
        Dashboard.top_scenario_share pm ==
          scenarioALE top / Qsum (map scenarioALE scenarios) * 100)) /\
    (Qsum (map scenarioALE scenarios) <= 0 ->
     Dashboard.top_scenario_share pm == 0) /\
    (AggregatedMetrics.highConcentration pm = true <->
     70 < Dashboard.top_scenario_share pm).
Proof.
  destruct (calculateClientSideMetrics_Some scenarios Hne) as [pm Hpm].
  exists pm. split; [exact Hpm|].
  unfold Dashboard.calculateClientSideMetrics in Hpm.
  destruct (Dashboard.Math_max _) as [m|] eqn:Hmax; [|discriminate].
  injection Hpm as <-.
  pose proof (totalALE_eq scenarios Hids) as HA.
  apply Math_max_spec in Hmax. destruct Hmax as [Hin Hge].
  apply in_map_iff in Hin. destruct Hin as [top [Htop Hintop]].
  pose proof (aleOf_eq scenarios Hids top Hintop) as Htop'.
  rewrite Htop in Htop'.
  split; [|split].
  - exists top. split; [exact Hintop|]. split.
    + intros s Hs. rewrite <- Htop', <- (aleOf_eq scenarios Hids s Hs).
      apply Hge. now apply in_map.
    + intros Hpos. simpl.
      destruct (Qgtb _ 0) eqn:E.
      * now rewrite HA, Htop'.
      * apply Qgtb_false in E. rewrite HA in E.
        apply Qlt_not_le in Hpos. contradiction.
  - intros Hle. simpl.
    destruct (Qgtb _ 0) eqn:E; [|reflexivity].
    apply Qgtb_true in E. rewrite HA in E.
    apply Qlt_not_le in E. contradiction.
  - unfold AggregatedMetrics.highConcentration. apply Qgtb_true.
Qed.

Lemma C9_top_scenario_share_witness :
  exists pm,
    Dashboard.calculateClientSideMetrics [dataBreach; dormant] = Some pm /\
    (exists top,
       In top [dataBreach; dormant] /\
       (forall s, In s [dataBreach; dormant] ->
                  scenarioALE s <= scenarioALE top) /\
       (0 < Qsum (map scenarioALE [dataBreach; dormant]) ->
        Dashboard.top_scenario_share pm ==
          scenarioALE top / Qsum (map scenarioALE [dataBreach; dormant]) * 100)) /\
    (Qsum (map scenarioALE [dataBreach; dormant]) <= 0 ->
     Dashboard.top_scenario_share pm == 0) /\
    (AggregatedMetrics.highConcentration pm = true <->
     70 < Dashboard.top_scenario_share pm).
Proof.
  apply (C9_top_scenario_share [dataBreach; dormant]).
  - discriminate.
  - exact distinct_ids_demo.
Defined.

(** C9 as worded fails on a portfolio whose ALE values sum to zero: the
    ratio [max(ALE_i) / Σ ALE_i] has no value there, and the code reports a
    share of [0]. *)
Lemma C9_counterexample :
  option_map Dashboard.top_scenario_share
    (Dashboard.calculateClientSideMetrics [dormant])
  <> ratio_max_over_sum (map scenarioALE [dormant]).
Proof. vm_compute. discriminate. Qed.

(** ** Sorting and the sampling loop *)

Lemma sort_insert_perm (compareFn : Q -> Q -> Q) (x : Q) (l : list Q) :
  Permutation (sort_insert compareFn x l) (x :: l).
Proof.
  induction l as [|y t IH]; simpl.
  - apply Permutation_refl.
  - destruct (Qle_bool (compareFn x y) 0).
    + apply Permutation_refl.
    + eapply perm_trans; [apply perm_skip, IH | apply perm_swap].
Qed.

Lemma Array_sort_perm (compareFn : Q -> Q -> Q) (l : list Q) :
  Permutation (Array_sort compareFn l) l.
Proof.
  induction l as [|x t IH]; simpl.
  - apply perm_nil.
  - eapply perm_trans; [apply sort_insert_perm | now apply perm_skip].
Qed.


Lemma Array_sort_Forall (P : Q -> Prop) (compareFn : Q -> Q -> Q) (l : list Q) :
  List.Forall P l -> List.Forall P (Array_sort compareFn l).
Proof.
  intros H. eapply Permutation_Forall; [|exact H].
  apply Permutation_sym, Array_sort_perm.
Qed.

Section SortedBy.

(** The order a comparator sorts by. *)
Variable compareFn : Q -> Q -> Q.
Variable before : Q -> Q -> Prop.
Hypothesis before_trans : forall a b c, before a b -> before b c -> before a c.
Hypothesis cmp_le : forall a b, compareFn a b <= 0 -> before a b.
Hypothesis cmp_gt : forall a b, ~ compareFn a b <= 0 -> before b a.

Lemma sort_insert_sorted (x : Q) (l : list Q) :
  StronglySorted before l -> StronglySorted before (sort_insert compareFn x l).
Proof.
  induction 1 as [|y t Hs IH Hall]; simpl.
  - constructor; constructor.
  - destruct (Qle_bool (compareFn x y) 0) eqn:E.
    + apply Qle_bool_iff in E. apply cmp_le in E.
      constructor; [now constructor|].
      constructor; [exact E|].
      eapply List.Forall_impl; [|exact Hall].
      intros a Ha. eapply before_trans; eassumption.
    + assert (Hyx : before y x).
      { apply cmp_gt. intros Hle. apply Qle_bool_iff in Hle. congruence. }
      constructor; [exact IH|].
      eapply Permutation_Forall;
        [apply Permutation_sym, sort_insert_perm|].
      now constructor.
Qed.

Lemma Array_sort_sorted (l : list Q) :
  StronglySorted before (Array_sort compareFn l).
Proof.
  induction l as [|x t IH]; simpl.
  - constructor.
  - now apply sort_insert_sorted.
Qed.

End SortedBy.


Lemma sort_descending_sorted (l : list Q) :
  StronglySorted (fun a b => b <= a) (Array_sort descending l).
Proof.
  apply Array_sort_sorted; unfold descending.
  - intros a b c H1 H2. eapply Qle_trans; eassumption.
  - intros a b H. qlra.
  - intros a b H. apply Qnot_le_lt in H. qlra.
Qed.

Lemma pushLoop_Forall (P : Q -> Prop) (body : Rand Q) (random : nat -> Q) :
  (forall k, P (fst (body random k))) ->
  forall n results k,
    List.Forall P results ->
    List.Forall P (fst (pushLoop n body results random k)).
Proof.
  intros Hbody. induction n as [|n IH]; intros results k Hres; simpl.
  - exact Hres.
  - unfold bind. specialize (Hbody k).
    destruct (body random k) as [a k']. simpl in Hbody.
    apply IH. apply Forall_app. split; [exact Hres|].
    constructor; [exact Hbody | constructor].
Qed.



Lemma nth_error_Forall (P : Q -> Prop) (l : list Q) (i : nat) (x : Q) :
  List.Forall P l -> nth_error l i = Some x -> P x.
Proof.
  intros H Hn. apply nth_error_In in Hn.
  rewrite List.Forall_forall in H. now apply H.
Qed.

(** ** Percentile triples *)



(** ** The analytic derivative with respect to TEF *)

(** C7, as the code has it.  The closed-form derivative of ALE with respect
    to TEF is [(Susceptibility / 100) × LM]: the stored percentage is turned
    into a fraction, and LM is the baseline loss magnitude.  It is the exact
    slope of the point-estimate ALE in TEF. *)
Theorem C7_partial_derivative_TEF (s : RiskScenario) :
  snd (SensitivityAnalysis.getPartialDerivative s
         SensitivityAnalysis.threatEventFrequency_)
  == (susceptibility s / 100) * baselineLM s /\
  forall d,
    SensitivityAnalysis.pointALE
      (with_threatEventFrequency s (threatEventFrequency s + d))
    - SensitivityAnalysis.pointALE s
    == d * snd (SensitivityAnalysis.getPartialDerivative s
                  SensitivityAnalysis.threatEventFrequency_).
Proof.
  split.
  - reflexivity.
  - intros d. unfold SensitivityAnalysis.pointALE,
      SensitivityAnalysis.calculateALE, SensitivityAnalysis.calculateLEF,
      SensitivityAnalysis.calculatePrimaryLoss,
      SensitivityAnalysis.calculateSecondaryLoss.
    simpl. unfold SensitivityAnalysis.calculateLEF,
      SensitivityAnalysis.calculatePrimaryLoss,
      SensitivityAnalysis.calculateSecondaryLoss. field.
Qed.

(** C7 as worded fails on the first initial scenario: with Susceptibility
    stored as 35 (percent) and LM = 1302500 the code gives 455875, not
    35 × 1302500. *)
Lemma C7_counterexample :
  snd (SensitivityAnalysis.getPartialDerivative dataBreach
         SensitivityAnalysis.threatEventFrequency_) == 455875 /\
  ~ snd (SensitivityAnalysis.getPartialDerivative dataBreach
           SensitivityAnalysis.threatEventFrequency_)
    == susceptibility dataBreach * baselineLM dataBreach.
Proof.
  split.
  - vm_compute. reflexivity.
  - intros H. vm_compute in H. discriminate H.
Qed.

(** ** The client-side Monte Carlo *)

Lemma ScenarioDetail_iteration_value (s : RiskScenario) (random : nat -> Q)
    (k : nat) :
  fst (ScenarioDetail.iteration s random k) =
  (threatEventFrequency s * ((4 # 5) + random k * (2 # 5)))
  * ((susceptibility s * ((4 # 5) + random (S k) * (2 # 5))) / 100)
  * (ScenarioDetail.calculatePrimaryLoss s
       * ((4 # 5) + random (S (S k)) * (2 # 5))
     + ScenarioDetail.calculateSecondaryLoss s
         * ((4 # 5) + random (S (S (S k))) * (2 # 5))
       * ((slef s * ((4 # 5) + random (S (S (S (S k)))) * (2 # 5))) / 100)).
Proof. reflexivity. Qed.


(** The five multipliers of one iteration, on non-negative factors. *)
Lemma perturbed_product_band (T S P X L a b c d e : Q) :
  0 <= T -> 0 <= S -> 0 <= P -> 0 <= X -> 0 <= L ->
  (4 # 5) <= a <= (6 # 5) -> (4 # 5) <= b <= (6 # 5) ->
  (4 # 5) <= c <= (6 # 5) -> (4 # 5) <= d <= (6 # 5) ->
  (4 # 5) <= e <= (6 # 5) ->
  within_band (T * (S / 100) * (P + X * (L / 100)))
    ((T * a) * ((S * b) / 100) * (P * c + X * d * ((L * e) / 100))).
Proof.
  intros HT HS HP HX HL Ha Hb Hc Hd He. unfold within_band.
  unfold Qdiv. change (/ 100) with (1 # 100).
  assert (Hab : (16 # 25) <= a * b <= (36 # 25)) by (split; qnra).
  assert (Hde : (16 # 25) <= d * e <= (36 # 25)) by (split; qnra).
  set (lef := T * (S * (1 # 100))).
  set (sec := X * (L * (1 # 100))).
  assert (Hlef : 0 <= lef) by (unfold lef; qnra).
  assert (Hsec : 0 <= sec) by (unfold sec; qnra).
  assert (E : (T * a) * ((S * b) * (1 # 100))
              * (P * c + X * d * ((L * e) * (1 # 100)))
              == (lef * (a * b)) * (P * c + sec * (d * e)))
    by (unfold lef, sec; ring).
  rewrite E. clear E.
  assert (Hl1 : (16 # 25) * lef <= lef * (a * b)) by qnra.
  assert (Hl2 : lef * (a * b) <= (36 # 25) * lef) by qnra.
  assert (Hs1 : (16 # 25) * (P + sec) <= P * c + sec * (d * e)) by qnra.
  assert (Hs2 : P * c + sec * (d * e) <= (36 # 25) * (P + sec)) by qnra.
  assert (Hsl : 0 <= P + sec) by qlra.
  set (u := lef * (a * b)) in *. set (v := P * c + sec * (d * e)) in *.
  set (w := P + sec) in *.
  split; qnra.
Qed.

Lemma draw_factor_band (r : Q) :
  0 <= r /\ r < 1 -> (4 # 5) <= (4 # 5) + r * (2 # 5) <= (6 # 5).
Proof. intros [H0 H1]. split; qlra. Qed.



Lemma ScenarioDetail_summary_value (s : RiskScenario) (simulations : nat)
    (random : nat -> Q) (k : nat) :
  fst (ScenarioDetail.summary s simulations random k) =
  ScenarioDetail.percentilesOf s
    (Array_sort descending (fst (ScenarioDetail.samples s simulations random k))).
Proof.
  unfold ScenarioDetail.summary, ScenarioDetail.runMonteCarloSimulation, bind.
  destruct (ScenarioDetail.samples s simulations random k). reflexivity.
Qed.


Section SampleBand.

Variable s : RiskScenario.
Variable random : nat -> Q.
Hypothesis Hs : nonnegative_factors s.
Hypothesis Hrand : unit_interval random.

Lemma ScenarioDetail_iteration_band (k : nat) :
  within_band (ScenarioDetail.calculateALE s)
    (fst (ScenarioDetail.iteration s random k)).
Proof.
  rewrite ScenarioDetail_iteration_value.
  destruct Hs as (HT & HS & Hp1 & Hp2 & Hp3 & Hx1 & Hx2 & Hx3 & HL).
  apply perturbed_product_band;
    try (apply draw_factor_band, Hrand); try assumption.
  - unfold ScenarioDetail.calculatePrimaryLoss. qlra.
  - unfold ScenarioDetail.calculateSecondaryLoss. qlra.
Qed.


End SampleBand.


(** The client-side simulation draws no event count: with a positive
    point-estimate ALE every one of its samples is positive, so no
    iteration is a year without loss. *)
Lemma ScenarioDetail_samples_positive (s : RiskScenario) (random : nat -> Q)
    (simulations k : nat) :
  nonnegative_factors s -> unit_interval random ->
  0 < ScenarioDetail.calculateALE s ->
  List.Forall (fun x => 0 < x)
    (fst (ScenarioDetail.samples s simulations random k)).
Proof.
  intros Hs Hrand Hpos.
  apply pushLoop_Forall; [|constructor].
  intros j.
  destruct (ScenarioDetail_iteration_band s random Hs Hrand j) as [Hlow _].
  eapply Qlt_le_trans; [|exact Hlow]. qnra.
Qed.

Lemma nonnegative_factors_dataBreach : nonnegative_factors dataBreach.
Proof. unfold nonnegative_factors, Qle. simpl. lia. Defined.



(** ** Zero loss *)

Lemma zero_loss_slee (s : RiskScenario) :
  zero_loss s -> ScenarioDetail.calculateSLEE s == 0.
Proof.
  intros (H1 & H2 & H3 & H4 & H5 & H6).
  unfold ScenarioDetail.calculateSLEE, ScenarioDetail.calculatePrimaryLoss,
    ScenarioDetail.calculateSecondaryLoss.
  rewrite H1, H2, H3, H4, H5, H6. unfold Qdiv. ring.
Qed.

Lemma zero_loss_iteration (s : RiskScenario) (random : nat -> Q) (k : nat) :
  zero_loss s -> fst (ScenarioDetail.iteration s random k) == 0.
Proof.
  intros (H1 & H2 & H3 & H4 & H5 & H6).
  rewrite ScenarioDetail_iteration_value.
  unfold ScenarioDetail.calculatePrimaryLoss,
    ScenarioDetail.calculateSecondaryLoss.
  rewrite H1, H2, H3, H4, H5, H6. unfold Qdiv. ring.
Qed.

(** C8.  If all six loss forms of a scenario are zero, then for every TEF
    and Susceptibility the client-side ALE and its five reported percentiles
    are zero, and so are the detail view's ALE and every percentile it reads
    off its Monte Carlo samples, whatever the generator returns. *)
Theorem C8_zero_loss (s : RiskScenario) (Hz : zero_loss s) :
  (let r := UseFairCalculation.calculateClientSide s in
   UseFairCalculation.ale r == 0 /\
   UseFairCalculation.ale_p10 r == 0 /\
   UseFairCalculation.ale_p50 r == 0 /\
   UseFairCalculation.ale_p90 r == 0 /\
   UseFairCalculation.ale_p95 r == 0 /\
   UseFairCalculation.ale_p99 r == 0) /\
  (forall random simulations k,
      let sm := fst (ScenarioDetail.summary s simulations random k) in
      ScenarioDetail.ale sm == 0 /\
      forall x,
        ScenarioDetail.p50 sm = Some x \/ ScenarioDetail.p90 sm = Some x \/
        ScenarioDetail.p99 sm = Some x ->
        x == 0).
Proof.
  pose proof (zero_loss_slee s Hz) as Hslee.
  assert (Hale : UseFairCalculation.ale (UseFairCalculation.calculateClientSide s)
                 == 0).
  { simpl. change (productivity s + response s + replacement s
                   + (fines s + competitiveAdvantage s + reputation s)
                     * (slef s / 100))
      with (ScenarioDetail.calculateSLEE s).
    rewrite Hslee. ring. }
  split.
  - simpl in *. rewrite Hale. repeat split; ring.
  - intros random simulations k sm. subst sm.
    rewrite ScenarioDetail_summary_value. simpl. split.
    + unfold ScenarioDetail.calculateALE. rewrite Hslee. ring.
    + intros x H.
      assert (Hall : List.Forall (fun y => y == 0)
                (Array_sort descending
                   (fst (ScenarioDetail.samples s simulations random k)))).
      { apply Array_sort_Forall. apply pushLoop_Forall; [|constructor].
        intros j. now apply zero_loss_iteration. }
      destruct H as [H | [H | H]];
        exact (nth_error_Forall _ _ _ _ Hall H).
Qed.

Lemma zero_loss_lossless : zero_loss lossless.
Proof. unfold zero_loss. simpl. repeat split; reflexivity. Defined.

Lemma C8_zero_loss_witness :
  zero_loss lossless /\
  (let r := UseFairCalculation.calculateClientSide lossless in
   UseFairCalculation.ale r == 0 /\
   UseFairCalculation.ale_p10 r == 0 /\
   UseFairCalculation.ale_p50 r == 0 /\
   UseFairCalculation.ale_p90 r == 0 /\
   UseFairCalculation.ale_p95 r == 0 /\
   UseFairCalculation.ale_p99 r == 0) /\
  (forall random simulations k,
      let sm := fst (ScenarioDetail.summary lossless simulations random k) in
      ScenarioDetail.ale sm == 0 /\
      forall x,
        ScenarioDetail.p50 sm = Some x \/ ScenarioDetail.p90 sm = Some x \/
        ScenarioDetail.p99 sm = Some x ->
        x == 0).
Proof.
  split; [exact zero_loss_lossless|].
  exact (C8_zero_loss lossless zero_loss_lossless).
Defined.

(** ** Percentiles of a sample array *)




(** ** The logit perturbation *)

Section LogitFacts.

Import Logit SensitivityAnalysis.
Local Open Scope R_scope.

(** Settle the comparisons of a closed computation on reals. *)
Ltac settle :=
  repeat match goal with
    | |- context [Rlt_dec ?a ?b] =>
        destruct (Rlt_dec a b); try (exfalso; lra)
    | |- context [Req_dec_T ?a ?b] =>
        destruct (Req_dec_T a b); try (exfalso; lra)
    end.

Lemma logit_finite (b : R) :
  0 < b < 100 -> logit (Fin b) = Fin (ln (b / (100 + - b))).
Proof.
  intros [H0 H1]. unfold logit, sub, neg, add, div, Math_log.
  assert (Hq : 0 < b / (100 + - b)) by (apply Rdiv_lt_0_compat; lra).
  settle; reflexivity.
Qed.

Lemma invLogit_finite (x : R) :
  invLogit (Fin x) = Fin (100 / (1 + exp (- x))).
Proof.
  unfold invLogit, neg, Math_exp, add, div.
  pose proof (exp_pos (- x)). settle. reflexivity.
Qed.

Lemma clamp_finite (y : R) :
  Math_max (Fin (1 / 10)) (Math_min (Fin (999 / 10)) (Fin y))
  = Fin (Rmax (1 / 10) (Rmin (999 / 10) y)).
Proof. reflexivity. Qed.

Lemma clamp_bounds (y : R) :
  1 / 10 <= Rmax (1 / 10) (Rmin (999 / 10) y) <= 999 / 10.
Proof.
  split.
  - apply Rmax_l.
  - apply Rmax_lub; [lra | apply Rmin_l].
Qed.

(** With a baseline strictly between 0 and 100 the perturbed percentage is
    finite and lies in [[0.1, 99.9]], whatever the perturbation. *)
Lemma applyVariation_inside (scenario testScenario : FAIRFactor -> num)
    (factor : FAIRFactor) (b pct : R) :
  factor = susceptibility_ \/ factor = slef_ ->
  scenario factor = Fin b -> 0 < b < 100 ->
  exists v,
    applyVariation local scenario testScenario factor (Fin pct) = Fin v /\
    1 / 10 <= v <= 999 / 10 /\
    inside_0_100 (Fin v).
Proof.
  intros Hf Hb Hrange.
  exists (Rmax (1 / 10)
            (Rmin (999 / 10)
               (100 / (1 + exp (- (ln (b / (100 + - b)) * (pct / 100))))))).
  pose proof (clamp_bounds
    (100 / (1 + exp (- (ln (b / (100 + - b)) * (pct / 100)))))) as Hc.
  split; [|split; [exact Hc | simpl; lra]].
  assert (Hdiv : div (Fin pct) (Fin 100) = Fin (pct / 100))
    by (unfold div; settle; reflexivity).
  destruct Hf as [-> | ->]; unfold applyVariation;
    rewrite Hb, (logit_finite b Hrange), Hdiv; simpl mul;
    rewrite invLogit_finite; apply clamp_finite.
Qed.

(** Whatever the inputs, the clamp leaves either [NaN] or a number in
    [[0.1, 99.9]]. *)
Lemma applyVariation_NaN_or_inside
    (scenario testScenario : FAIRFactor -> num)
    (factor : FAIRFactor) (pct : num) :
  factor = susceptibility_ \/ factor = slef_ ->
  applyVariation local scenario testScenario factor pct = NaN \/
  inside_0_100 (applyVariation local scenario testScenario factor pct).
Proof.
  intros Hf.
  assert (Hclamp : forall z,
    Math_max (Fin (1 / 10)) (Math_min (Fin (999 / 10)) z) = NaN \/
    inside_0_100 (Math_max (Fin (1 / 10)) (Math_min (Fin (999 / 10)) z))).
  { intros [| | |y]; simpl.
    - now left.
    - right. pose proof (Rmax_l (1 / 10) (999 / 10)).
      assert (Rmax (1 / 10) (999 / 10) <= 999 / 10)
        by (apply Rmax_lub; lra).
      lra.
    - right. lra.
    - right. pose proof (clamp_bounds y). lra. }
  destruct Hf as [-> | ->]; apply Hclamp.
Qed.

(** A baseline of exactly 0% or 100% scanned at 0% of baseline gives
    [NaN]: the logit is infinite and is multiplied by zero. *)
Lemma applyVariation_boundary_NaN (scenario testScenario : FAIRFactor -> num)
    (factor : FAIRFactor) (b : R) :
  factor = susceptibility_ \/ factor = slef_ ->
  scenario factor = Fin b -> b = 0 \/ b = 100 ->
  applyVariation local scenario testScenario factor (Fin 0) = NaN.
Proof.
  intros Hf Hb Hval.
  assert (Hd : div (Fin 0) (Fin 100) = Fin 0).
  { unfold div. settle. f_equal. lra. }
  assert (Hl : logit (Fin b) = NegInf \/ logit (Fin b) = PosInf).
  { destruct Hval as [-> | ->]; unfold logit, sub, neg, add, div, Math_log.
    - left. assert (E : 0 / (100 + - 0) = 0) by lra. settle; reflexivity.
    - right. settle; reflexivity. }
  destruct Hf as [-> | ->]; unfold applyVariation; rewrite Hb, Hd;
    destruct Hl as [-> | ->]; unfold mul, scale_inf; settle; reflexivity.
Qed.

(** C6 fails when the baseline is 0% (or 100%) and the scan starts at 0%
    of baseline.  For the scenario [ungated], whose SLEF is 0, the first
    step of a local scan of SLEF from 0% to 150% has percentage 0;
    [logit 0] is [-Infinity], [-Infinity * 0] is [NaN], and [Math.min] and
    [Math.max] hand the [NaN] on: the perturbed value is not a number, so
    not inside (0, 100). *)
Theorem C6_logit_not_a_number :
  percentageAt (Fin 0) (Fin 150) 0 = Fin 0 /\
  logit (factorValue ungated slef_) = NegInf /\
  applyVariation local (factorValue ungated) (factorValue ungated) slef_
    (percentageAt (Fin 0) (Fin 150) 0) = NaN /\
  ~ inside_0_100
      (applyVariation local (factorValue ungated) (factorValue ungated) slef_
         (percentageAt (Fin 0) (Fin 150) 0)).
Proof.
  assert (Hp : percentageAt (Fin 0) (Fin 150) 0 = Fin 0).
  { unfold percentageAt, sub, neg, add, div, mul. simpl INR.
    settle. f_equal. lra. }
  assert (Hs : factorValue ungated slef_ = Fin 0).
  { unfold factorValue. simpl. f_equal. apply RMicromega.Q2R_0. }
  assert (Hl : logit (Fin 0) = NegInf).
  { unfold logit, sub, neg, add, div, Math_log.
    assert (E : 0 / (100 + - 0) = 0) by lra.
    settle; try reflexivity. }
  assert (Hv : applyVariation local (factorValue ungated)
                 (factorValue ungated) slef_
                 (percentageAt (Fin 0) (Fin 150) 0) = NaN).
  { unfold applyVariation. rewrite Hp, Hs, Hl.
    assert (Hd : div (Fin 0) (Fin 100) = Fin 0).
    { unfold div. settle. f_equal. lra. }
    rewrite Hd. unfold mul, scale_inf. settle. reflexivity. }
  split; [exact Hp|]. split; [now rewrite Hs|]. split; [exact Hv|].
  rewrite Hv. simpl. tauto.
Qed.

End LogitFacts.

(** ** The event-count draw *)

Section EventDraw.

Import RiskService.
Local Open Scope R_scope.



End EventDraw.

(** * Further properties of the front end *)

(** ** Sensitivity analysis: derivatives, elasticity, variance shares *)

Section SensitivityFacts.

Import SensitivityAnalysis SensitivityTools.

Lemma calculatePrimaryLoss_plain (s : RiskScenario) :
  calculatePrimaryLoss s == productivity s + response s + replacement s.
Proof. unfold calculatePrimaryLoss. now rewrite !or_zero_eq. Qed.

Lemma calculateSecondaryLoss_plain (s : RiskScenario) :
  calculateSecondaryLoss s
  == fines s + competitiveAdvantage s + reputation s.
Proof. unfold calculateSecondaryLoss. now rewrite !or_zero_eq. Qed.

Lemma pointALE_plain (s : RiskScenario) :
  pointALE s ==
  threatEventFrequency s * (susceptibility s * (1 # 100))
  * ((productivity s + response s + replacement s)
     + (fines s + competitiveAdvantage s + reputation s)
       * (slef s * (1 # 100))).
Proof.
  unfold pointALE, calculateALE, calculateLEF, calculateLM.
  rewrite calculatePrimaryLoss_plain, calculateSecondaryLoss_plain.
  unfold Qdiv. change (/ 100) with (1 # 100). reflexivity.
Qed.

Lemma partial_plain (s : RiskScenario) (f : FAIRFactor) :
  snd (getPartialDerivative s f) ==
  match f with
  | threatEventFrequency_ =>
      (susceptibility s * (1 # 100))
      * ((productivity s + response s + replacement s)
         + (fines s + competitiveAdvantage s + reputation s)
           * (slef s * (1 # 100)))
  | susceptibility_ =>
      threatEventFrequency s
      * ((productivity s + response s + replacement s)
         + (fines s + competitiveAdvantage s + reputation s)
           * (slef s * (1 # 100)))
      * (1 # 100)
  | slef_ =>
      threatEventFrequency s * (susceptibility s * (1 # 100))
      * (fines s + competitiveAdvantage s + reputation s) * (1 # 100)
  | productivity_ | response_ | replacement_ =>
      threatEventFrequency s * (susceptibility s * (1 # 100))
  | fines_ | competitiveAdvantage_ | reputation_ =>
      threatEventFrequency s * (susceptibility s * (1 # 100))
      * (slef s * (1 # 100))
  end.
Proof.
  destruct f; unfold getPartialDerivative, calculateLEF, calculateLM; simpl snd;
    rewrite ?calculatePrimaryLoss_plain, ?calculateSecondaryLoss_plain;
    unfold Qdiv; change (/ 100) with (1 # 100); reflexivity.
Qed.

(** ALE is affine in every factor, and its slope is the closed form. *)
Lemma pointALE_withFactor (s : RiskScenario) (f : FAIRFactor) (v : Q) :
  pointALE (withFactor s f v)
  == pointALE s + (v - factorOf s f) * snd (getPartialDerivative s f).
Proof.
  rewrite partial_plain, !pointALE_plain.
  destruct f; unfold withFactor, factorOf; simpl; ring.
Qed.

End SensitivityFacts.

(** ** Sorting any elements, and sums up to reordering *)

Lemma sort_insert_by_perm {A} (compareFn : A -> A -> Q) (x : A) (l : list A) :
  Permutation (sort_insert_by compareFn x l) (x :: l).
Proof.
  induction l as [|y t IH]; simpl.
  - apply Permutation_refl.
  - destruct (Qle_bool (compareFn x y) 0).
    + apply Permutation_refl.
    + eapply perm_trans; [apply perm_skip, IH | apply perm_swap].
Qed.

Lemma Array_sort_by_perm {A} (compareFn : A -> A -> Q) (l : list A) :
  Permutation (Array_sort_by compareFn l) l.
Proof.
  induction l as [|x t IH]; simpl.
  - apply perm_nil.
  - eapply perm_trans; [apply sort_insert_by_perm | now apply perm_skip].
Qed.

Section SortedByKey.

Variable A : Type.
Variable key : A -> Q.

(** Sorting by descending key. *)
Lemma sort_insert_by_desc (x : A) (l : list A) :
  StronglySorted (fun a b => key b <= key a) l ->
  StronglySorted (fun a b => key b <= key a)
    (sort_insert_by (fun a b => key b - key a) x l).
Proof.
  induction 1 as [|y t Hs IH Hall]; simpl.
  - constructor; constructor.
  - destruct (Qle_bool (key y - key x) 0) eqn:E.
    + apply Qle_bool_iff in E.
      constructor; [now constructor|].
      constructor; [qlra|].
      eapply List.Forall_impl; [|exact Hall].
      intros a Ha. simpl in *. qlra.
    + assert (Hyx : key x <= key y).
      { destruct (Qlt_le_dec (key y) (key x)) as [Hlt|Hle]; [|exact Hle].
        assert (Hc : key y - key x <= 0) by qlra.
        apply Qle_bool_iff in Hc. congruence. }
      constructor; [exact IH|].
      eapply Permutation_Forall;
        [apply Permutation_sym, sort_insert_by_perm|].
      now constructor.
Qed.

Lemma Array_sort_by_desc (l : list A) :
  StronglySorted (fun a b => key b <= key a)
    (Array_sort_by (fun a b => key b - key a) l).
Proof.
  induction l as [|x t IH]; simpl.
  - constructor.
  - now apply sort_insert_by_desc.
Qed.

End SortedByKey.

Lemma fold_left_Qplus_shift (l : list Q) (a : Q) :
  fold_left Qplus l a == a + fold_left Qplus l 0.
Proof.
  revert a. induction l as [|x t IH]; intros a; simpl.
  - ring.
  - rewrite (IH (a + x)), (IH (0 + x)). ring.
Qed.

Lemma Qsum_cons (x : Q) (l : list Q) : Qsum (x :: l) == x + Qsum l.
Proof.
  unfold Qsum. simpl. rewrite fold_left_Qplus_shift. ring.
Qed.

Lemma Qsum_perm (l l' : list Q) : Permutation l l' -> Qsum l == Qsum l'.
Proof.
  induction 1 as [|x l l' _ IH|x y l|l l' l'' _ IH1 _ IH2].
  - reflexivity.
  - now rewrite !Qsum_cons, IH.
  - rewrite !Qsum_cons. ring.
  - now rewrite IH1.
Qed.

Lemma Qsum_nonneg (l : list Q) :
  List.Forall (fun x => 0 <= x) l -> 0 <= Qsum l.
Proof.
  induction 1 as [|x l Hx _ IH].
  - unfold Qsum. simpl. qlra.
  - rewrite Qsum_cons. qlra.
Qed.

Section SensitivityExtras.

Import SensitivityAnalysis SensitivityTools.

(** X1.  For every factor of the sensitivity analysis, the closed form
    returned by [getPartialDerivative] is the exact slope of the
    point-estimate ALE in that factor: changing the factor by [d] changes
    ALE by [d] times the value. *)
Theorem X1_partial_derivative_is_slope (s : RiskScenario) (f : FAIRFactor)
    (d : Q) :
  pointALE (withFactor s f (factorOf s f + d)) - pointALE s
  == d * snd (getPartialDerivative s f).
Proof. rewrite pointALE_withFactor. ring. Qed.

Lemma partial_nonneg (s : RiskScenario) (f : FAIRFactor) :
  nonnegative_factors s -> 0 <= snd (getPartialDerivative s f).
Proof.
  intros (HT & HS & H1 & H2 & H3 & H4 & H5 & H6 & HL).
  rewrite partial_plain.
  assert (Hs : 0 <= susceptibility s * (1 # 100)) by qlra.
  assert (Hl : 0 <= slef s * (1 # 100)) by qlra.
  assert (Hp : 0 <= productivity s + response s + replacement s) by qlra.
  assert (Hx : 0 <= fines s + competitiveAdvantage s + reputation s) by qlra.
  set (sf := susceptibility s * (1 # 100)) in *.
  set (lf := slef s * (1 # 100)) in *.
  set (P := productivity s + response s + replacement s) in *.
  set (X := fines s + competitiveAdvantage s + reputation s) in *.
  assert (Hxl : 0 <= X * lf) by qnra.
  assert (Hlm : 0 <= P + X * lf) by qlra.
  assert (Hlef : 0 <= threatEventFrequency s * sf) by qnra.
  destruct f; qnra.
Qed.

(** X2.  For a scenario with no negative factor, every closed-form
    derivative is non-negative, so raising any one factor never lowers the
    point-estimate ALE. *)
Theorem X2_ale_monotone_in_each_factor (s : RiskScenario) (f : FAIRFactor)
    (d : Q) (Hs : nonnegative_factors s) (Hd : 0 <= d) :
  0 <= snd (getPartialDerivative s f) /\
  pointALE s <= pointALE (withFactor s f (factorOf s f + d)).
Proof.
  pose proof (partial_nonneg s f Hs) as Hp. split; [exact Hp|].
  rewrite pointALE_withFactor.
  set (p := snd (getPartialDerivative s f)) in *. qnra.
Qed.

Lemma X2_ale_monotone_in_each_factor_witness :
  nonnegative_factors dataBreach /\ 0 <= 10 /\
  0 <= snd (getPartialDerivative dataBreach fines_) /\
  pointALE dataBreach
  <= pointALE (withFactor dataBreach fines_ (factorOf dataBreach fines_ + 10)).
Proof.
  assert (H10 : 0 <= 10) by (unfold Qle; simpl; lia).
  split; [exact nonnegative_factors_dataBreach|]. split; [exact H10|].
  exact (X2_ale_monotone_in_each_factor dataBreach fines_ 10
           nonnegative_factors_dataBreach H10).
Defined.

Lemma finite_div_Some (x y : Q) :
  ~ y == 0 -> finite_div x y = Some (x / y).
Proof.
  intros H. unfold finite_div.
  destruct (Qeq_bool y 0) eqn:E; [|reflexivity].
  apply Qeq_bool_iff in E. contradiction.
Qed.

Lemma finite_div_None (x y : Q) : y == 0 -> finite_div x y = None.
Proof.
  intros H. unfold finite_div.
  apply Qeq_bool_iff in H. now rewrite H.
Qed.

(** X3.  When the selected factor is not zero, the finite-difference slope
    of [calculateElasticity] equals the closed form of
    [getPartialDerivative]; when, besides, the baseline ALE is not zero, the
    elasticity [e] satisfies [e × ALE = factor × slope], and it is exactly 1
    for TEF and for Susceptibility. *)
Theorem X3_elasticity_matches_derivative (s : RiskScenario) (f : FAIRFactor)
    (Hbase : ~ factorOf s f == 0) :
  (exists v,
      slope (calculateElasticity s f) = Some v /\
      v == snd (getPartialDerivative s f)) /\
  (~ pointALE s == 0 ->
   exists e,
     elasticity (calculateElasticity s f) = Some e /\
     e * pointALE s == factorOf s f * snd (getPartialDerivative s f) /\
     (f = threatEventFrequency_ \/ f = susceptibility_ -> e == 1)).
Proof.
  assert (Hdelta : ~ factorOf s f * (1 # 100) == 0).
  { intros H. apply Hbase. qlra. }
  assert (Hnew : pointALE (withFactor s f
                   (factorOf s f + factorOf s f * (1 # 100))) - pointALE s
                 == factorOf s f * (1 # 100) * snd (getPartialDerivative s f)).
  { rewrite pointALE_withFactor. ring. }
  split.
  - eexists. split.
    + unfold calculateElasticity. simpl slope.
      apply finite_div_Some. exact Hdelta.
    + change (calculateALE _ _ - calculateALE _ _)
        with (pointALE (withFactor s f
                (factorOf s f + factorOf s f * (1 # 100))) - pointALE s).
      rewrite Hnew. field. exact Hbase.
  - intros Hale. eexists. split; [|split].
    + unfold calculateElasticity. simpl elasticity.
      change (calculateALE
                (calculateLEF (threatEventFrequency s) (susceptibility s))
                (calculateLM (calculatePrimaryLoss s)
                   (calculateSecondaryLoss s) (slef s)))
        with (pointALE s).
      rewrite (finite_div_Some _ (pointALE s) Hale).
      rewrite (finite_div_Some _ (factorOf s f) Hbase).
      simpl lift2. apply finite_div_Some.
      intros H. apply Hbase.
      assert (E : factorOf s f * (1 # 100) / factorOf s f == 1 # 100)
        by (field; exact Hbase).
      rewrite E in H. discriminate H.
    + change (calculateALE _ _ - pointALE s)
        with (pointALE (withFactor s f
                (factorOf s f + factorOf s f * (1 # 100))) - pointALE s).
      rewrite Hnew. field. split; assumption.
    + intros Hf.
      change (calculateALE _ _ - pointALE s)
        with (pointALE (withFactor s f
                (factorOf s f + factorOf s f * (1 # 100))) - pointALE s).
      rewrite Hnew.
      assert (Hx : factorOf s f * snd (getPartialDerivative s f)
                   == pointALE s).
      { rewrite partial_plain, pointALE_plain.
        destruct Hf as [-> | ->]; simpl; ring. }
      set (p := snd (getPartialDerivative s f)) in *.
      set (x := factorOf s f) in *.
      assert (E : x * (1 # 100) * p / pointALE s / (x * (1 # 100) / x)
                  == (x * p) / pointALE s) by (field; split; assumption).
      rewrite E, Hx. field. exact Hale.
Qed.

(** X4.  A factor whose value is zero has no finite elasticity and no
    finite slope: the 1% step is zero and both quotients divide by it.  A
    zero baseline ALE leaves the elasticity without a finite value as
    well. *)
Theorem X4_elasticity_undefined_at_zero (s : RiskScenario) (f : FAIRFactor) :
  (factorOf s f == 0 ->
   elasticity (calculateElasticity s f) = None /\
   slope (calculateElasticity s f) = None) /\
  (pointALE s == 0 -> elasticity (calculateElasticity s f) = None).
Proof.
  split.
  - intros H0.
    assert (Hd : factorOf s f * (1 # 100) == 0) by (rewrite H0; ring).
    unfold calculateElasticity. simpl. split.
    + rewrite (finite_div_None (factorOf s f * (1 # 100)) (factorOf s f) H0).
      destruct (finite_div _ _); reflexivity.
    + now apply finite_div_None.
  - intros H0. unfold calculateElasticity. simpl elasticity.
    change (calculateALE
              (calculateLEF (threatEventFrequency s) (susceptibility s))
              (calculateLM (calculatePrimaryLoss s)
                 (calculateSecondaryLoss s) (slef s)))
      with (pointALE s).
    now rewrite (finite_div_None _ (pointALE s) H0).
Qed.

End SensitivityExtras.

Section VarianceAndTarget.

Import SensitivityAnalysis SensitivityTools.

Lemma X3_elasticity_matches_derivative_witness :
  ~ factorOf dataBreach threatEventFrequency_ == 0 /\
  (exists v,
      slope (calculateElasticity dataBreach threatEventFrequency_) = Some v /\
      v == snd (getPartialDerivative dataBreach threatEventFrequency_)) /\
  (~ pointALE dataBreach == 0 ->
   exists e,
     elasticity (calculateElasticity dataBreach threatEventFrequency_)
     = Some e /\
     e * pointALE dataBreach
     == factorOf dataBreach threatEventFrequency_
        * snd (getPartialDerivative dataBreach threatEventFrequency_) /\
     (threatEventFrequency_ = threatEventFrequency_ \/
      threatEventFrequency_ = susceptibility_ -> e == 1)).
Proof.
  assert (H : ~ factorOf dataBreach threatEventFrequency_ == 0)
    by (intros E; discriminate E).
  split; [exact H|].
  exact (X3_elasticity_matches_derivative dataBreach threatEventFrequency_ H).
Defined.






End VarianceAndTarget.

Section VarianceShares.

Import SensitivityAnalysis SensitivityTools.





End VarianceShares.

Section TargetSearch.

Import SensitivityTools.

Lemma Qltb_true (x y : Q) : Qltb x y = true <-> x < y.
Proof. unfold Qltb. apply (Qgtb_true y x). Qed.

Lemma Qltb_false (x y : Q) : Qltb x y = false <-> y <= x.
Proof. unfold Qltb. apply (Qgtb_false y x). Qed.




End TargetSearch.

(** ** The logit perturbation: round trip, fixed points, direction *)

Section LogitExtras.

Import Logit SensitivityAnalysis.
Local Open Scope R_scope.

Ltac settle' :=
  repeat match goal with
    | |- context [Rlt_dec ?a ?b] =>
        destruct (Rlt_dec a b); try (exfalso; lra)
    | |- context [Req_dec_T ?a ?b] =>
        destruct (Req_dec_T a b); try (exfalso; lra)
    end.

Lemma exp_le (x y : R) : x <= y -> exp x <= exp y.
Proof.
  intros [H | ->]; [left; now apply exp_increasing | right; reflexivity].
Qed.

Lemma sigmoid_increasing (x y : R) : x <= y -> sigmoid x <= sigmoid y.
Proof.
  intros H. unfold sigmoid.
  pose proof (exp_pos (- x)). pose proof (exp_pos (- y)).
  assert (He : exp (- y) <= exp (- x)) by (apply exp_le; lra).
  unfold Rdiv. apply Rmult_le_compat_l; [lra|].
  apply Rinv_le_contravar; lra.
Qed.

Lemma sigmoid_ln (q : R) : 0 < q -> sigmoid (ln q) = 100 * q / (1 + q).
Proof.
  intros Hq. unfold sigmoid. rewrite exp_Ropp, exp_ln by exact Hq.
  field. split; lra.
Qed.

Lemma applyVariation_value (scenario testScenario : FAIRFactor -> num)
    (factor : FAIRFactor) (b pct : R) :
  factor = susceptibility_ \/ factor = slef_ ->
  scenario factor = Fin b -> 0 < b < 100 ->
  applyVariation local scenario testScenario factor (Fin pct)
  = Fin (Rmax (1 / 10)
           (Rmin (999 / 10)
              (sigmoid (ln (b / (100 + - b)) * (pct / 100))))).
Proof.
  intros Hf Hb Hrange.
  assert (Hdiv : div (Fin pct) (Fin 100) = Fin (pct / 100))
    by (unfold div; settle'; reflexivity).
  destruct Hf as [-> | ->]; unfold applyVariation;
    rewrite Hb, (logit_finite b Hrange), Hdiv; simpl mul;
    rewrite invLogit_finite; apply clamp_finite.
Qed.

End LogitExtras.

Section LogitProperties.

Import Logit SensitivityAnalysis.
Local Open Scope R_scope.

(** X7.  [invLogit] undoes [logit]: for every percentage strictly between 0
    and 100, [invLogit (logit p)] is [p] again. *)
Theorem X7_invLogit_logit (p : R) (Hp : 0 < p < 100) :
  invLogit (logit (Fin p)) = Fin p.
Proof.
  rewrite (logit_finite p Hp), invLogit_finite. f_equal.
  assert (Hq : 0 < p / (100 + - p)) by (apply Rdiv_lt_0_compat; lra).
  change (100 / (1 + exp (- ln (p / (100 + - p)))))
    with (sigmoid (ln (p / (100 + - p)))).
  rewrite (sigmoid_ln _ Hq). field. split; lra.
Qed.

Lemma X7_invLogit_logit_witness :
  0 < 35 < 100 /\ invLogit (logit (Fin 35)) = Fin 35.
Proof.
  assert (H : 0 < 35 < 100) by lra.
  split; [exact H | exact (X7_invLogit_logit 35 H)].
Defined.

(** X8.  In a local scan of a percentage factor whose baseline lies in
    [[0.1, 99.9]], the point at 100% of baseline is the baseline itself, and
    a baseline of exactly 50% is not moved by any perturbation. *)
Theorem X8_scan_fixed_points (scenario testScenario : FAIRFactor -> num)
    (factor : FAIRFactor) (b : R)
    (Hf : factor = susceptibility_ \/ factor = slef_)
    (Hb : scenario factor = Fin b)
    (Hrange : 1 / 10 <= b <= 999 / 10) :
  applyVariation local scenario testScenario factor (Fin 100) = Fin b /\
  (b = 50 ->
   forall pct,
     applyVariation local scenario testScenario factor (Fin pct) = Fin 50).
Proof.
  assert (Hin : 0 < b < 100) by lra.
  assert (Hq : 0 < b / (100 + - b)) by (apply Rdiv_lt_0_compat; lra).
  split.
  - rewrite (applyVariation_value _ _ _ b 100 Hf Hb Hin). f_equal.
    replace (ln (b / (100 + - b)) * (100 / 100))
      with (ln (b / (100 + - b))) by lra.
    rewrite (sigmoid_ln _ Hq).
    replace (100 * (b / (100 + - b)) / (1 + b / (100 + - b))) with b
      by (field; split; lra).
    rewrite Rmin_right by lra. now rewrite Rmax_right by lra.
  - intros Eb pct.
    rewrite (applyVariation_value _ _ _ b pct Hf Hb Hin). f_equal.
    replace (b / (100 + - b)) with 1 by (rewrite Eb; field; lra).
    rewrite ln_1, Rmult_0_l. unfold sigmoid. rewrite Ropp_0, exp_0.
    replace (100 / (1 + 1)) with 50 by lra.
    rewrite Rmin_right by lra. now rewrite Rmax_right by lra.
Qed.

(** X9.  The local scan of a percentage factor moves towards 50% or away
    from it, not up or down: for a baseline at or below 50% a larger
    perturbation percentage gives a smaller (or equal) value, for a baseline
    at or above 50% a larger (or equal) one. *)
Theorem X9_scan_direction (scenario testScenario : FAIRFactor -> num)
    (factor : FAIRFactor) (b pct1 pct2 : R)
    (Hf : factor = susceptibility_ \/ factor = slef_)
    (Hb : scenario factor = Fin b)
    (Hrange : 0 < b < 100)
    (Hpct : pct1 <= pct2) :
  exists v1 v2,
    applyVariation local scenario testScenario factor (Fin pct1) = Fin v1 /\
    applyVariation local scenario testScenario factor (Fin pct2) = Fin v2 /\
    (b <= 50 -> v2 <= v1) /\
    (50 <= b -> v1 <= v2).
Proof.
  assert (Hq : 0 < b / (100 + - b)) by (apply Rdiv_lt_0_compat; lra).
  do 2 eexists.
  split; [apply (applyVariation_value _ _ _ b pct1 Hf Hb Hrange)|].
  split; [apply (applyVariation_value _ _ _ b pct2 Hf Hb Hrange)|].
  set (L := ln (b / (100 + - b))).
  split; intros Hside.
  - assert (HL : L <= 0).
    { unfold L. rewrite <- ln_1.
      assert (Hle : b / (100 + - b) <= 1).
      { apply (Rmult_le_reg_r (100 + - b)); [lra|].
        unfold Rdiv. rewrite Rmult_assoc, Rinv_l by lra. lra. }
      destruct Hle as [Hlt | Heq].
      - left. apply ln_increasing; [exact Hq | exact Hlt].
      - right. now rewrite Heq. }
    apply Rle_max_compat_l, Rle_min_compat_l, sigmoid_increasing. nra.
  - assert (HL : 0 <= L).
    { unfold L. rewrite <- ln_1.
      assert (Hle : 1 <= b / (100 + - b)).
      { apply (Rmult_le_reg_r (100 + - b)); [lra|].
        unfold Rdiv. rewrite Rmult_assoc, Rinv_l by lra. lra. }
      destruct Hle as [Hlt | Heq].
      - left. apply ln_increasing; [lra | exact Hlt].
      - right. now rewrite <- Heq. }
    apply Rle_max_compat_l, Rle_min_compat_l, sigmoid_increasing. nra.
Qed.

End LogitProperties.

Section LogitWitnesses.

Import Logit SensitivityAnalysis.
Local Open Scope R_scope.

Lemma susceptibility_dataBreach :
  factorValue dataBreach susceptibility_ = Fin 35.
Proof.
  unfold factorValue. simpl. f_equal. unfold Q2R. simpl. lra.
Defined.

Lemma X8_scan_fixed_points_witness :
  (susceptibility_ = susceptibility_ \/ susceptibility_ = slef_) /\
  factorValue dataBreach susceptibility_ = Fin 35 /\
  1 / 10 <= 35 <= 999 / 10 /\
  applyVariation local (factorValue dataBreach) (factorValue dataBreach)
    susceptibility_ (Fin 100) = Fin 35 /\
  (35 = 50 ->
   forall pct,
     applyVariation local (factorValue dataBreach) (factorValue dataBreach)
       susceptibility_ (Fin pct) = Fin 50).
Proof.
  assert (Hf : susceptibility_ = susceptibility_ \/ susceptibility_ = slef_)
    by (left; reflexivity).
  assert (Hr : 1 / 10 <= 35 <= 999 / 10) by lra.
  split; [exact Hf|]. split; [exact susceptibility_dataBreach|].
  split; [exact Hr|].
  exact (X8_scan_fixed_points (factorValue dataBreach) (factorValue dataBreach)
           susceptibility_ 35 Hf susceptibility_dataBreach Hr).
Defined.

Lemma X9_scan_direction_witness :
  (susceptibility_ = susceptibility_ \/ susceptibility_ = slef_) /\
  factorValue dataBreach susceptibility_ = Fin 35 /\
  0 < 35 < 100 /\ 100 <= 150 /\
  exists v1 v2,
    applyVariation local (factorValue dataBreach) (factorValue dataBreach)
      susceptibility_ (Fin 100) = Fin v1 /\
    applyVariation local (factorValue dataBreach) (factorValue dataBreach)
      susceptibility_ (Fin 150) = Fin v2 /\
    (35 <= 50 -> v2 <= v1) /\
    (50 <= 35 -> v1 <= v2).
Proof.
  assert (Hf : susceptibility_ = susceptibility_ \/ susceptibility_ = slef_)
    by (left; reflexivity).
  assert (Hr : 0 < 35 < 100) by lra.
  assert (Hp : 100 <= 150) by lra.
  split; [exact Hf|]. split; [exact susceptibility_dataBreach|].
  split; [exact Hr|]. split; [exact Hp|].
  exact (X9_scan_direction (factorValue dataBreach) (factorValue dataBreach)
           susceptibility_ 35 100 150 Hf susceptibility_dataBreach Hr Hp).
Defined.

End LogitWitnesses.

(** ** The loss exceedance curve *)

Section LossExceedanceFacts.

Import LossExceedance.

Lemma lecLoop_more_fuel (results : list Q) (step : nat) :
  forall fuel i acc pts,
    lecLoop fuel results step i acc = Some pts ->
    forall extra, lecLoop (fuel + extra) results step i acc = Some pts.
Proof.
  induction fuel as [|fuel IH]; intros i acc pts H extra; [discriminate|].
  simpl in *. destruct (i <? length results)%nat; [|exact H].
  now apply IH.
Qed.

Lemma lecLoop_stuck (results : list Q) (i : nat) :
  (i < length results)%nat ->
  forall fuel acc, lecLoop fuel results 0 i acc = None.
Proof.
  intros Hi. induction fuel as [|fuel IH]; intros acc; [reflexivity|].
  simpl. apply Nat.ltb_lt in Hi. rewrite Hi, Nat.add_0_r. apply IH.
Qed.

Lemma lecLoop_terminates (results : list Q) (step : nat) :
  (1 <= step)%nat ->
  forall m fuel i acc,
    (length results - i <= m)%nat -> (m < fuel)%nat ->
    exists pts,
      lecLoop fuel results step i acc = Some (acc ++ pts) /\
      (length results - i <= step * length pts)%nat /\
      ((length pts = 0)%nat \/
       (step * (length pts - 1) < length results - i)%nat).
Proof.
  intros Hstep. induction m as [|m IH]; intros fuel i acc Hm Hfuel.
  - destruct fuel as [|fuel]; [lia|]. simpl.
    assert (E : (i <? length results)%nat = false) by (apply Nat.ltb_ge; lia).
    rewrite E. exists []. rewrite app_nil_r. simpl. split; [reflexivity|lia].
  - destruct fuel as [|fuel]; [lia|]. simpl.
    destruct (i <? length results)%nat eqn:E.
    + apply Nat.ltb_lt in E.
      destruct (IH fuel (i + step)%nat
                  (acc ++ [ {| probability :=
                                 Fixed (inject_Z (Z.of_nat i)
                                        / inject_Z (Z.of_nat (length results))
                                        * 100) 1;
                               loss := Math_round (nth i results 0) |} ]))
        as (pts & Heq & Hlow & Hup); [lia | lia |].
      eexists (_ :: pts). rewrite Heq, <- app_assoc. simpl.
      split; [reflexivity|]. split; [nia|]. right.
      destruct Hup as [-> | Hup]; simpl; [lia | nia].
    + apply Nat.ltb_ge in E.
      exists []. rewrite app_nil_r. simpl. split; [reflexivity|lia].
Qed.

(** X10.  [generateLEC] steps through the sorted results by
    [floor (N / 50)].  With at least 50 results the loop ends and the curve
    has between 50 and 99 points; with 1 to 49 results the step is zero and
    the loop never ends, whatever the number of passes allowed; with no
    result the curve is empty. *)
Theorem X10_lec_points (results : list Q) :
  ((50 <= length results)%nat ->
   exists pts,
     (forall fuel, (length results < fuel)%nat ->
                   lecOf fuel results = Some pts) /\
     (50 <= length pts <= 99)%nat) /\
  ((0 < length results < 50)%nat ->
   forall fuel, lecOf fuel results = None) /\
  (results = [] -> forall fuel, lecOf (S fuel) results = Some []).
Proof.
  split; [|split].
  - intros HN. set (N := length results) in *.
    assert (Hstep : (1 <= N / 50)%nat)
      by (apply Nat.div_le_lower_bound; lia).
    destruct (lecLoop_terminates results (N / 50) Hstep N (S N) 0 [])
      as (pts & Heq & Hlow & Hup); [fold N; lia | lia |].
    fold N in Hlow, Hup. rewrite Nat.sub_0_r in Hlow, Hup.
    exists pts. split.
    + intros fuel Hfuel. unfold lecOf. fold N.
      replace fuel with (S N + (fuel - S N))%nat by lia.
      now apply lecLoop_more_fuel.
    + pose proof (Nat.div_mod_eq N 50) as Hdm.
      pose proof (Nat.mod_upper_bound N 50 ltac:(lia)) as Hr.
      set (q := (N / 50)%nat) in *. set (r := (N mod 50)%nat) in *.
      split.
      * nia.
      * destruct Hup as [H0 | Hup]; [lia|]. nia.
  - intros [H0 H50] fuel. unfold lecOf.
    rewrite Nat.div_small by exact H50.
    now apply lecLoop_stuck.
  - intros -> fuel. reflexivity.
Qed.

End LossExceedanceFacts.

Section LossExceedanceOrder.

Import LossExceedance.

Lemma Math_round_le (x y : Q) : x <= y -> (Math_round x <= Math_round y)%Z.
Proof. intros H. unfold Math_round. apply Qfloor_resp_le. qlra. Qed.

Lemma sorted_desc_nth (l : list Q) :
  StronglySorted (fun a b => b <= a) l ->
  forall i j, (i <= j)%nat -> (j < length l)%nat -> nth j l 0 <= nth i l 0.
Proof.
  induction 1 as [|x t Hs IH Hall]; intros i j Hij Hj; [simpl in Hj; lia|].
  destruct i as [|i], j as [|j]; simpl in *; try lia.
  - apply Qle_refl.
  - rewrite List.Forall_forall in Hall. apply Hall, nth_In. lia.
  - apply IH; lia.
Qed.

Lemma sorted_snoc (l : list LecPoint) (p : LecPoint) :
  StronglySorted (fun a b => (loss b <= loss a)%Z) l ->
  (forall a, In a l -> (loss p <= loss a)%Z) ->
  StronglySorted (fun a b => (loss b <= loss a)%Z) (l ++ [p]).
Proof.
  induction 1 as [|x t Hs IH Hall]; intros Hp; simpl.
  - constructor; constructor.
  - constructor.
    + apply IH. intros a Ha. apply Hp. now right.
    + apply Forall_app. split; [exact Hall|].
      constructor; [|constructor]. apply Hp. now left.
Qed.

Lemma lecLoop_sorted (results : list Q) (step : nat) :
  StronglySorted (fun a b => b <= a) results ->
  forall fuel i acc pts,
    lecLoop fuel results step i acc = Some pts ->
    StronglySorted (fun a b => (loss b <= loss a)%Z) acc ->
    (forall a j, In a acc -> (i <= j)%nat -> (j < length results)%nat ->
                 (Math_round (nth j results 0%Q) <= loss a)%Z) ->
    StronglySorted (fun a b => (loss b <= loss a)%Z) pts.
Proof.
  intros Hres. induction fuel as [|fuel IH]; intros i acc pts H Hacc Hinv;
    [discriminate|].
  simpl in H. destruct (i <? length results)%nat eqn:E.
  - apply Nat.ltb_lt in E. apply (IH _ _ _ H).
    + apply sorted_snoc; [exact Hacc|].
      intros a Ha. simpl. apply (Hinv a i Ha); lia.
    + intros a j Ha Hij Hj. apply in_app_or in Ha.
      destruct Ha as [Ha | [<- | []]].
      * apply (Hinv a j Ha); lia.
      * simpl. apply Math_round_le. apply sorted_desc_nth; try assumption. lia.
  - injection H as <-. exact Hacc.
Qed.

(** X11.  Along every loss exceedance curve that [generateLEC] returns, the
    loss never increases from one point to the next: the curve is read off
    the simulation results sorted in descending order. *)
Theorem X11_lec_losses_descend (s : RiskScenario) (simulations fuel : nat)
    (random : nat -> Q) (k : nat) (pts : list LecPoint)
    (Hpts : fst (generateLEC s simulations fuel random k) = Some pts) :
  StronglySorted (fun a b => (loss b <= loss a)%Z) pts.
Proof.
  unfold generateLEC, ScenarioDetail.runMonteCarloSimulation, bind in Hpts.
  destruct (ScenarioDetail.samples s simulations random k) as [samples k'].
  simpl in Hpts. unfold lecOf in Hpts.
  eapply lecLoop_sorted; [apply sort_descending_sorted | exact Hpts | |].
  - constructor.
  - intros a j [].
Qed.

Lemma X11_lec_losses_descend_witness :
  exists pts,
    fst (generateLEC dataBreach 50%nat 51%nat always_half 0%nat) = Some pts /\
    StronglySorted (fun a b => (loss b <= loss a)%Z) pts.
Proof.
  destruct (fst (generateLEC dataBreach 50%nat 51%nat always_half 0%nat)) as [pts|] eqn:H.
  - exists pts. split; [reflexivity|].
    exact (X11_lec_losses_descend dataBreach 50%nat 51%nat always_half 0%nat pts H).
  - exfalso. vm_compute in H. discriminate H.
Defined.

End LossExceedanceOrder.

(** ** The top scenario of a portfolio *)

Section TopScenario.

Import Dashboard.

Lemma indexOf_In (l : list Q) (m : Q) :
  In m l ->
  exists i y,
    indexOf l m = Some i /\ nth_error l i = Some y /\ y == m /\
    forall j z, (j < i)%nat -> nth_error l j = Some z -> ~ z == m.
Proof.
  induction l as [|x t IH]; intros Hin; [destruct Hin|].
  simpl. destruct (Qeq_bool x m) eqn:E.
  - apply Qeq_bool_iff in E. exists 0%nat, x.
    repeat split; try assumption. intros j z Hj. lia.
  - assert (Hne : ~ x == m) by (now apply Qeq_bool_neq).
    destruct Hin as [-> | Hin]; [exfalso; apply Hne; reflexivity|].
    destruct (IH Hin) as (i & y & Hi & Hn & Hy & Hfirst).
    exists (S i), y. rewrite Hi. simpl. repeat split; try assumption.
    intros [|j] z Hj Hz; simpl in Hz.
    + injection Hz as <-. exact Hne.
    + apply (Hfirst j z); [lia | exact Hz].
Qed.

Lemma find_by_id (l : list RiskScenario) (top : RiskScenario) :
  List.NoDup (map id l) -> In top l ->
  find (fun s => String.eqb (id s) (id top)) l = Some top.
Proof.
  induction l as [|x t IH]; intros Hnd Hin; [destruct Hin|].
  simpl in *. inversion Hnd as [|? ? Hx Hnd']; subst.
  destruct Hin as [-> | Hin].
  - now rewrite String.eqb_refl.
  - destruct (String.eqb (id x) (id top)) eqn:E.
    + apply String.eqb_eq in E. exfalso. apply Hx. rewrite E.
      now apply in_map.
    + now apply IH.
Qed.

(** X12.  For a non-empty portfolio with distinct ids, the
    [top_scenario_id] of the client-side metrics is the id of a scenario
    whose ALE is the largest of the portfolio, the first such scenario in
    list order, and it is the scenario the concentration card looks up by
    that id. *)
Theorem X12_top_scenario_id (scenarios : list RiskScenario)
    (pm : PortfolioMetrics)
    (Hids : List.NoDup (map id scenarios))
    (Hpm : calculateClientSideMetrics scenarios = Some pm) :
  exists i top,
    nth_error scenarios i = Some top /\
    top_scenario_id pm = id top /\
    topScenario scenarios pm = Some top /\
    (forall s, In s scenarios -> scenarioALE s <= scenarioALE top) /\
    (forall j s, (j < i)%nat -> nth_error scenarios j = Some s ->
                 scenarioALE s < scenarioALE top).
Proof.
  unfold calculateClientSideMetrics in Hpm.
  destruct (Math_max _) as [m|] eqn:Hmax; [|discriminate].
  destruct (Math_max_spec _ _ Hmax) as [Hin Hge].
  destruct (indexOf_In _ _ Hin) as (i & y & Hi & Hn & Hy & Hfirst).
  rewrite Hi in Hpm.
  rewrite nth_error_map in Hn.
  destruct (nth_error scenarios i) as [top|] eqn:Htop; [|discriminate].
  simpl in Hn. injection Hn as Hn.
  injection Hpm as <-. simpl.
  assert (Hintop : In top scenarios) by (eapply nth_error_In; eassumption).
  assert (Htopm : scenarioALE top == m).
  { rewrite <- Hy, <- Hn. symmetry. now apply aleOf_eq. }
  exists i, top. split; [exact Htop|]. split; [reflexivity|].
  split; [|split].
  - unfold topScenario. simpl. now apply find_by_id.
  - intros s Hs. rewrite Htopm, <- (aleOf_eq scenarios Hids s Hs).
    apply Hge. now apply in_map.
  - intros j s Hj Hs.
    assert (Hins : In s scenarios) by (eapply nth_error_In; eassumption).
    assert (Hle : scenarioALE s <= m).
    { rewrite <- (aleOf_eq scenarios Hids s Hins). apply Hge. now apply in_map. }
    assert (Hne : ~ aleOf (buildCalc scenarios) s == m).
    { apply (Hfirst j); [exact Hj|].
      rewrite nth_error_map, Hs. reflexivity. }
    rewrite (aleOf_eq scenarios Hids s Hins) in Hne.
    rewrite Htopm. apply Qle_lteq in Hle. destruct Hle; [assumption|contradiction].
Qed.

End TopScenario.

Section ShareBounds.

Import Dashboard.

Lemma X12_top_scenario_id_witness :
  List.NoDup (map id [dataBreach; dormant]) /\
  exists pm,
    calculateClientSideMetrics [dataBreach; dormant] = Some pm /\
    exists i top,
      nth_error [dataBreach; dormant] i = Some top /\
      top_scenario_id pm = id top /\
      topScenario [dataBreach; dormant] pm = Some top /\
      (forall s, In s [dataBreach; dormant] ->
                 scenarioALE s <= scenarioALE top) /\
      (forall j s, (j < i)%nat -> nth_error [dataBreach; dormant] j = Some s ->
                   scenarioALE s < scenarioALE top).
Proof.
  split; [exact distinct_ids_demo|].
  destruct (calculateClientSideMetrics [dataBreach; dormant]) as [pm|] eqn:H.
  - exists pm. split; [reflexivity|].
    exact (X12_top_scenario_id [dataBreach; dormant] pm distinct_ids_demo H).
  - exfalso. vm_compute in H. discriminate H.
Defined.

Lemma Qsum_le_length_max (l : list Q) (m : Q) :
  (forall a, In a l -> a <= m) ->
  Qsum l <= inject_Z (Z.of_nat (length l)) * m.
Proof.
  induction l as [|x t IH]; intros H.
  - change (0 <= 0 * m). qlra.
  - rewrite Qsum_cons.
    assert (Hx : x <= m) by (apply H; now left).
    assert (Ht : Qsum t <= inject_Z (Z.of_nat (length t)) * m)
      by (apply IH; intros a Ha; apply H; now right).
    assert (E : inject_Z (Z.of_nat (length (x :: t)))
                == 1 + inject_Z (Z.of_nat (length t))).
    { simpl length. rewrite Nat2Z.inj_succ. unfold Z.succ.
      rewrite inject_Z_plus. ring. }
    rewrite E. qlra.
Qed.

Lemma member_le_Qsum (l : list Q) (m : Q) :
  (forall a, In a l -> 0 <= a) -> In m l -> m <= Qsum l.
Proof.
  induction l as [|x t IH]; intros Hnn Hin; [destruct Hin|].
  rewrite Qsum_cons.
  assert (Hx : 0 <= x) by (apply Hnn; now left).
  assert (Ht : 0 <= Qsum t).
  { apply Qsum_nonneg. rewrite List.Forall_forall.
    intros a Ha. apply Hnn. now right. }
  destruct Hin as [-> | Hin]; [qlra|].
  assert (m <= Qsum t) by (apply IH; [intros a Ha; apply Hnn; now right|exact Hin]).
  qlra.
Qed.

Lemma Qsum_map_eq (A : Type) (f g : A -> Q) (l : list A) :
  (forall a, In a l -> f a == g a) ->
  Qsum (map f l) == Qsum (map g l).
Proof.
  induction l as [|x t IH]; intros H; [reflexivity|].
  simpl map. rewrite !Qsum_cons, IH.
  - rewrite (H x); [reflexivity | now left].
  - intros a Ha. apply H. now right.
Qed.

(** X13.  For a portfolio with distinct ids whose scenarios have
    non-negative ALE values summing to a positive number, the
    [top_scenario_share] lies between [100 / n] and [100], [n] being the
    number of scenarios; a portfolio of a single scenario therefore has a
    share of 100 and always raises the high-concentration flag. *)
Theorem X13_share_bounds (scenarios : list RiskScenario)
    (pm : PortfolioMetrics)
    (Hids : List.NoDup (map id scenarios))
    (Hpm : calculateClientSideMetrics scenarios = Some pm)
    (Hnonneg : forall s, In s scenarios -> 0 <= scenarioALE s)
    (Hpos : 0 < Qsum (map scenarioALE scenarios)) :
  100 <= inject_Z (Z.of_nat (length scenarios)) * top_scenario_share pm /\
  top_scenario_share pm <= 100 /\
  (length scenarios = 1%nat ->
   top_scenario_share pm == 100 /\
   AggregatedMetrics.highConcentration pm = true).
Proof.
  pose proof (totalALE_eq scenarios Hids) as HA.
  unfold calculateClientSideMetrics in Hpm.
  destruct (Math_max _) as [m|] eqn:Hmax; [|discriminate].
  destruct (Math_max_spec _ _ Hmax) as [Hin Hge].
  injection Hpm as <-.
  unfold AggregatedMetrics.highConcentration. simpl.
  assert (Hg : Qgtb (reduceValues c_ale (buildCalc scenarios)) 0 = true).
  { apply Qgtb_true. now rewrite HA. }
  rewrite Hg.
  set (ales := map (aleOf (buildCalc scenarios)) scenarios) in *.
  set (total := reduceValues c_ale (buildCalc scenarios)) in *.
  assert (Hsum : Qsum ales == total).
  { rewrite HA. apply Qsum_map_eq. intros a Ha. now apply aleOf_eq. }
  assert (Hnn : forall a, In a ales -> 0 <= a).
  { intros a Ha. apply in_map_iff in Ha. destruct Ha as (s & <- & Hs).
    rewrite (aleOf_eq scenarios Hids s Hs). now apply Hnonneg. }
  assert (Hm1 : m <= total).
  { rewrite <- Hsum. now apply member_le_Qsum. }
  assert (Hm2 : total <= inject_Z (Z.of_nat (length scenarios)) * m).
  { rewrite <- Hsum. unfold ales at 1.
    replace (length scenarios) with (length ales)
      by (unfold ales; apply length_map).
    now apply Qsum_le_length_max. }
  assert (Htot : 0 < total) by now rewrite HA.
  assert (Hq : m / total * total == m) by (field; qlra).
  set (n := inject_Z (Z.of_nat (length scenarios))) in *.
  set (q := m / total) in *.
  assert (Hq1 : q <= 1) by qnra.
  assert (Hq2 : 1 <= n * q) by qnra.
  split; [qnra|]. split; [qnra|].
  intros Hone.
  assert (Hn1 : n == 1) by (unfold n; rewrite Hone; reflexivity).
  assert (Hq3 : q == 1) by (rewrite Hn1 in Hq2; qlra).
  split; [rewrite Hq3; reflexivity|].
  apply Qgtb_true. rewrite Hq3. reflexivity.
Qed.

End ShareBounds.

Lemma X13_share_bounds_witness :
  exists pm,
    Dashboard.calculateClientSideMetrics [dataBreach; dormant] = Some pm /\
    100 <= inject_Z (Z.of_nat (length [dataBreach; dormant]))
           * Dashboard.top_scenario_share pm /\
    Dashboard.top_scenario_share pm <= 100 /\
    (length [dataBreach; dormant] = 1%nat ->
     Dashboard.top_scenario_share pm == 100 /\
     AggregatedMetrics.highConcentration pm = true).
Proof.
  destruct (Dashboard.calculateClientSideMetrics [dataBreach; dormant])
    as [pm|] eqn:H.
  - exists pm. split; [reflexivity|].
    apply (X13_share_bounds [dataBreach; dormant] pm distinct_ids_demo H).
    + intros s [<- | [<- | []]]; vm_compute; discriminate.
    + vm_compute. reflexivity.
  - exfalso. vm_compute in H. discriminate H.
Defined.

Section RangeValidation.

Import RangeEstimationInput.

Ltac cmp :=
  repeat match goal with
  | H : Qgtb _ _ = true |- _ => apply Qgtb_true in H
  | H : Qgtb _ _ = false |- _ => apply Qgtb_false in H
  | H : Qle_bool _ _ = true |- _ => apply Qle_bool_iff in H
  end.

Ltac not_greater x y := rewrite (proj2 (Qgtb_false x y)) by qlra.
Ltac at_least x y := rewrite (proj2 (Qle_bool_iff x y)) by qlra.

(** What [isValid] checks, spelled out. *)
Lemma isValid_spec (p10 p50 p90 : Q) (isProbability : bool)
    (min max : option Q) :
  isValid p10 p50 p90 isProbability min max = true <->
  (0 <= p10 /\ p10 <= p50 /\ p50 <= p90 /\
   (isProbability = true -> p90 <= 100) /\
   (forall m, min = Some m -> m <= p10) /\
   (forall m, max = Some m -> p90 <= m)).
Proof.
  unfold isValid, validateRange. cbn [errors]. split.
  - intros H.
    apply andb_true_iff in H as [H H90].
    apply andb_true_iff in H as [H H50].
    apply andb_true_iff in H as [H H10].
    apply Nat.eqb_eq in H. apply List.length_zero_iff_nil in H.
    apply List.app_eq_nil in H as [Hm H].
    apply List.app_eq_nil in H as [Hp Hb].
    apply List.app_eq_nil in Hm as [Hm1 Hm2].
    apply List.app_eq_nil in Hb as [Hb1 Hb2].
    destruct (Qgtb p10 p50) eqn:E1; [discriminate|].
    destruct (Qgtb p50 p90) eqn:E2; [discriminate|].
    cmp. repeat split; try assumption.
    + intros ->. apply List.app_eq_nil in Hp as [_ Hp].
      destruct (Qgtb p10 100 || Qgtb p50 100 || Qgtb p90 100) eqn:E;
        [discriminate|].
      apply orb_false_iff in E as [_ E]. cmp. exact E.
    + intros m ->. destruct (Qgtb m p10) eqn:E; [discriminate|].
      cmp. exact E.
    + intros m ->. destruct (Qgtb p90 m) eqn:E; [discriminate|].
      cmp. exact E.
  - intros (H0 & H1 & H2 & Hp & Hmin & Hmax).
    not_greater p10 p50. not_greater p50 p90.
    at_least 0 p10. at_least 0 p50. at_least 0 p90.
    assert (Hpr : (if isProbability
                   then (if Qgtb 0 p10 || Qgtb 0 p50 || Qgtb 0 p90
                         then [Lit "Probabilities must be ≥ 0%"] else [])
                        ++ (if Qgtb p10 100 || Qgtb p50 100 || Qgtb p90 100
                            then [Lit "Probabilities must be ≤ 100%"]
                            else [])
                   else []) = []).
    { destruct isProbability; [|reflexivity].
      specialize (Hp eq_refl).
      not_greater 0 p10. not_greater 0 p50. not_greater 0 p90.
      not_greater p10 100. not_greater p50 100. not_greater p90 100.
      reflexivity. }
    rewrite Hpr.
    destruct min as [m|], max as [m'|];
      try (pose proof (Hmin m eq_refl); not_greater m p10);
      try (pose proof (Hmax m' eq_refl); not_greater p90 m');
      reflexivity.
Qed.

(** X14.  [isValid] of the range estimation input holds exactly when the
    three percentiles are non-negative and in order, the upper one is at
    most 100 for a probability, and the optional [min] and [max] bound the
    range from below and above. *)
Theorem X14_isValid_iff (p10 p50 p90 : Q) (isProbability : bool)
    (min max : option Q) :
  isValid p10 p50 p90 isProbability min max = true <->
  (0 <= p10 /\ p10 <= p50 /\ p50 <= p90 /\
   (isProbability = true -> p90 <= 100) /\
   (forall m, min = Some m -> m <= p10) /\
   (forall m, max = Some m -> p90 <= m)).
Proof. apply isValid_spec. Qed.

End RangeValidation.

Lemma Qeq_bool_apart (x y : Q) : ~ x == y -> Qeq_bool x y = false.
Proof.
  intros H. destruct (Qeq_bool x y) eqn:E; [|reflexivity].
  apply Qeq_bool_iff in E. contradiction.
Qed.

Section SliderFacts.

Import RangeSlider.

Lemma Math_round_near (x : Q) :
  x - (1 # 2) <= inject_Z (Math_round x) /\
  inject_Z (Math_round x) <= x + (1 # 2).
Proof.
  unfold Math_round.
  pose proof (Qfloor_le (x + (1 # 2))) as H1.
  pose proof (Qlt_floor (x + (1 # 2))) as H2.
  rewrite inject_Z_plus in H2.
  change (inject_Z 1) with 1 in H2.
  split; qlra.
Qed.

Lemma percentOf_unit (rect : Rect) (clientX percent : Q) :
  percentOf rect clientX = Some percent -> 0 <= percent <= 1.
Proof.
  unfold percentOf.
  destruct (Qeq_bool (width rect) 0).
  - destruct (Qeq_bool (clientX - left rect) 0); [discriminate|].
    destruct (Qgtb (clientX - left rect) 0); intros [= <-]; split; qlra.
  - intros [= <-]. split.
    + apply Q.le_max_l.
    + apply Q.max_lub; [qlra|]. apply Q.le_min_l.
Qed.

(** X15.  Dragging a handle of the range slider never breaks the order of
    the triple: whatever finite value the pointer gives, an ordered
    [p10 <= p50 <= p90] stays ordered, only the dragged handle moves, and it
    lands on the pointer's value whenever that value lies between its
    neighbours. *)
Theorem X15_slider_keeps_order (activeHandle : Handle)
    (sliderRef : option Rect) (min max step clientX : Q)
    (r r' : Percentiles)
    (Hord : monotone r)
    (Hmove : handleMouseMove activeHandle sliderRef min max step clientX r
             = Some r') :
  monotone r' /\
  (activeHandle <> p10_ -> P10 r' = P10 r) /\
  (activeHandle <> p50_ -> P50 r' = P50 r) /\
  (activeHandle <> p90_ -> P90 r' = P90 r) /\
  exists value,
    getValueFromPosition sliderRef (P50 r) min max step clientX = Some value /\
    (activeHandle = p10_ -> value <= P50 r -> P10 r' == value) /\
    (activeHandle = p50_ -> P10 r <= value <= P90 r -> P50 r' == value) /\
    (activeHandle = p90_ -> P50 r <= value -> P90 r' == value).
Proof.
  unfold handleMouseMove in Hmove.
  destruct (getValueFromPosition sliderRef (P50 r) min max step clientX)
    as [value|]; [|discriminate].
  injection Hmove as <-.
  destruct Hord as [H1 H2].
  split.
  - unfold monotone.
    destruct activeHandle; simpl; split; try assumption.
    + apply Q.le_min_r.
    + apply Q.le_max_l.
    + apply Q.max_lub; [qlra|]. apply Q.le_min_r.
    + apply Q.le_max_r.
  - split; [destruct activeHandle; simpl; congruence|].
    split; [destruct activeHandle; simpl; congruence|].
    split; [destruct activeHandle; simpl; congruence|].
    exists value. split; [reflexivity|].
    split; [|split].
    + intros -> Hv. simpl. now apply Q.min_l.
    + intros -> [Hv1 Hv2]. simpl.
      rewrite (Q.min_l _ _ Hv2). now apply Q.max_r.
    + intros -> Hv. simpl. now apply Q.max_l.
Qed.

Lemma X15_slider_keeps_order_witness :
  monotone {| P10 := 10; P50 := 50; P90 := 90 |} /\
  exists r',
    handleMouseMove p50_ (Some {| left := 0; width := 200 |}) 0 100 1 190
      {| P10 := 10; P50 := 50; P90 := 90 |} = Some r' /\
    monotone r'.
Proof.
  assert (Hord : monotone {| P10 := 10; P50 := 50; P90 := 90 |})
    by (split; simpl; qlra).
  split; [exact Hord|].
  destruct (handleMouseMove p50_ (Some {| left := 0; width := 200 |})
              0 100 1 190 {| P10 := 10; P50 := 50; P90 := 90 |})
    as [r'|] eqn:H.
  - exists r'. split; [reflexivity|].
    exact (proj1 (X15_slider_keeps_order p50_
                    (Some {| left := 0; width := 200 |}) 0 100 1 190
                    {| P10 := 10; P50 := 50; P90 := 90 |} r' Hord H)).
  - exfalso. vm_compute in H. discriminate H.
Defined.

(** X16.  The value the slider reads off the pointer is a whole number of
    steps, at most half a step away from the point of the track under the
    pointer, and that point lies between [min] and [max]. *)
Theorem X16_slider_value_on_grid (rect : Rect) (p50 min max step clientX : Q)
    (Hstep : 0 < step) (Hwidth : 0 < width rect) (Hrange : min <= max) :
  exists (k : Z) (target : Q),
    getValueFromPosition (Some rect) p50 min max step clientX
      = Some (inject_Z k * step) /\
    min <= target <= max /\
    target - step / 2 <= inject_Z k * step <= target + step / 2.
Proof.
  unfold getValueFromPosition.
  destruct (percentOf rect clientX) as [percent|] eqn:Hp.
  2:{ unfold percentOf in Hp.
      assert (Hw : Qeq_bool (width rect) 0 = false).
      { apply Qeq_bool_apart. intros E. rewrite E in Hwidth. discriminate. }
      rewrite Hw in Hp. discriminate Hp. }
  destruct (percentOf_unit _ _ _ Hp) as [Hp0 Hp1].
  assert (Hs : Qeq_bool step 0 = false).
  { apply Qeq_bool_apart. intros E. rewrite E in Hstep. discriminate. }
  rewrite Hs.
  set (target := min + percent * (max - min)).
  exists (Math_round (target / step)), target.
  split; [reflexivity|].
  split; [unfold target; split; qnra|].
  destruct (Math_round_near (target / step)) as [Hlo Hhi].
  assert (Ht : target / step * step == target) by (field; qlra).
  set (q := target / step) in *.
  set (k := inject_Z (Math_round q)) in *.
  assert (E2 : step / 2 == step * (1 # 2)) by (field).
  rewrite E2. split; qnra.
Qed.

Lemma X16_slider_value_on_grid_witness :
  exists (k : Z) (target : Q),
    getValueFromPosition (Some {| left := 0; width := 200 |}) 50 0 100 5 33
      = Some (inject_Z k * 5) /\
    0 <= target <= 100 /\
    target - 5 / 2 <= inject_Z k * 5 <= target + 5 / 2.
Proof.
  apply (X16_slider_value_on_grid {| left := 0; width := 200 |} 50 0 100 5 33).
  - reflexivity.
  - reflexivity.
  - vm_compute. discriminate.
Defined.

End SliderFacts.

Section WhiskerFacts.

Import RangeWhisker.

(** X17.  For an ordered triple the median tick of the range whisker stays
    on the whisker: [p50Position] lies between 0 and 100.  With a positive
    median the spread is labelled Low exactly when the range is narrower
    than the median, and High exactly when it is at least three times the
    median. *)
Theorem X17_whisker_position (p10 p50 p90 : Q)
    (H1 : p10 <= p50) (H2 : p50 <= p90) :
  0 <= p50Position p10 p50 p90 <= 100 /\
  (0 < p50 ->
   (uncertaintyLevel p10 p50 p90 = Low <-> p90 - p10 < p50) /\
   (uncertaintyLevel p10 p50 p90 = High <-> 3 * p50 <= p90 - p10)).
Proof.
  split.
  - unfold p50Position.
    destruct (Qgtb (p90 - p10) 0) eqn:E; [|split; qlra].
    apply Qgtb_true in E.
    assert (Hq : (p50 - p10) / (p90 - p10) * (p90 - p10) == p50 - p10)
      by (field; qlra).
    set (q := (p50 - p10) / (p90 - p10)) in *.
    split; qnra.
  - intros Hpos. unfold uncertaintyLevel.
    assert (Hz : Qeq_bool p50 0 = false).
    { destruct (Qeq_bool p50 0) eqn:E; [|reflexivity].
      apply Qeq_bool_iff in E. qlra. }
    destruct (Qgtb (p90 - p10) 0) eqn:E.
    + apply Qgtb_true in E. rewrite Hz.
      assert (Hq : (p90 - p10) / p50 * p50 == p90 - p10) by (field; qlra).
      set (u := (p90 - p10) / p50) in *.
      destruct (Qltb u 1) eqn:E1.
      * apply Qltb_true in E1.
        split; split; try discriminate; try reflexivity; intros; qnra.
      * apply Qltb_false in E1.
        destruct (Qltb u 3) eqn:E3.
        -- apply Qltb_true in E3.
           split; split; try discriminate; intros; exfalso; qnra.
        -- apply Qltb_false in E3.
           split; split; try discriminate; try reflexivity; intros;
             try (exfalso; qnra); qnra.
    + apply Qgtb_false in E.
      split; split; try discriminate; try reflexivity; intros; qlra.
Qed.

Lemma X17_whisker_position_witness :
  0 <= p50Position 10 50 90 <= 100 /\
  (0 < 50 ->
   (uncertaintyLevel 10 50 90 = Low <-> 90 - 10 < 50) /\
   (uncertaintyLevel 10 50 90 = High <-> 3 * 50 <= 90 - 10)).
Proof.
  apply (X17_whisker_position 10 50 90); vm_compute; discriminate.
Defined.

End WhiskerFacts.

Section RequestFacts.

Import CalculationRequest.

Lemma when_truthy_monotone (x : Q) (r : Percentiles) :
  (~ x == 0 -> monotone r) -> monotone_if_present (when_truthy x r).
Proof.
  intros H. unfold when_truthy.
  destruct (Qeq_bool x 0) eqn:E; [exact I|].
  apply H. now apply Qeq_bool_neq.
Qed.

Lemma Qmin_100_ge (x : Q) (k : Q) :
  0 <= x -> x <= 100 -> 1 <= k -> x <= Qmin 100 (x * k).
Proof.
  intros H0 H1 Hk. apply Q.min_glb; [exact H1 | qnra].
Qed.

(** X18.  For a scenario with no negative factor whose two probabilities
    are at most 100, every range that [scenarioToCalculationRequest] derives
    from the point estimates is in order, [p10 <= p50 <= p90], in the
    fallback branch and in the ranged branch alike; a loss form, and the
    SLEF, is left out of the request exactly when its point estimate is
    zero. *)
Theorem X18_request_ranges_ordered (scenario : RiskScenario)
    (useRanges : bool)
    (Hnonneg : nonnegative_factors scenario)
    (Hsusc : susceptibility scenario <= 100)
    (Hslef : slef scenario <= 100) :
  let r := scenarioToCalculationRequest scenario point_estimates_only
             useRanges in
  ordered_request r /\
  (lf_productivity (r_loss_forms r) = None <-> productivity scenario == 0) /\
  (lf_response (r_loss_forms r) = None <-> response scenario == 0) /\
  (lf_replacement (r_loss_forms r) = None <-> replacement scenario == 0) /\
  (lf_fines (r_loss_forms r) = None <-> fines scenario == 0) /\
  (lf_competitive_advantage (r_loss_forms r) = None
   <-> competitiveAdvantage scenario == 0) /\
  (lf_reputation (r_loss_forms r) = None <-> reputation scenario == 0) /\
  (r_slef r = None <-> slef scenario == 0).
Proof.
  destruct Hnonneg as (H1 & H2 & H3 & H4 & H5 & H6 & H7 & H8 & H9).
  assert (Hnone : forall x t, when_truthy x t = None <-> x == 0).
  { intros x t. unfold when_truthy.
    destruct (Qeq_bool x 0) eqn:E.
    - apply Qeq_bool_iff in E. split; [intros _; exact E | reflexivity].
    - split; [discriminate|]. intros Hx. apply Qeq_bool_neq in E.
      contradiction. }
  destruct useRanges; cbv zeta;
    unfold scenarioToCalculationRequest, point_estimates_only, ordered_request;
    cbn [numbers r_tef r_susceptibility r_loss_forms r_slef percentiles
         lf_productivity lf_response lf_replacement lf_fines
         lf_competitive_advantage lf_reputation];
    rewrite ?lookup_empty; cbn [or_else];
    (split; [|repeat split; apply Hnone]);
    repeat split;
    try (apply when_truthy_monotone; intros _; split);
    cbn [P10 P50 P90];
    try qlra;
    apply Qmin_100_ge; (assumption || qlra).
Qed.

Lemma X18_request_ranges_ordered_witness :
  ordered_request
    (scenarioToCalculationRequest dataBreach point_estimates_only false) /\
  (r_slef (scenarioToCalculationRequest dataBreach point_estimates_only false)
   = None <-> slef dataBreach == 0).
Proof.
  pose proof (X18_request_ranges_ordered dataBreach false
                nonnegative_factors_dataBreach) as H.
  cbv zeta in H.
  assert (H1 : susceptibility dataBreach <= 100) by (vm_compute; discriminate).
  assert (H2 : slef dataBreach <= 100) by (vm_compute; discriminate).
  destruct (H H1 H2) as (Ho & _ & _ & _ & _ & _ & _ & Hs).
  split; [exact Ho | exact Hs].
Defined.

End RequestFacts.

Lemma NoDup_snoc (A : Type) (l : list A) (x : A) :
  List.NoDup l -> ~ In x l -> List.NoDup (l ++ [x]).
Proof.
  intros Hl Hx.
  apply (Permutation_NoDup (Permutation_cons_append l x)).
  now constructor.
Qed.

Section WizardFacts.

Import ScenarioCreation ScenarioWizard.

Lemma portfolioALE_sum (scenarios : list RiskScenario) :
  List.NoDup (map id scenarios) ->
  portfolioALE scenarios == Qsum (map scenarioALE scenarios).
Proof.
  intros Hids. unfold portfolioALE.
  destruct scenarios as [|s t] eqn:E; [reflexivity|].
  rewrite <- E in *.
  destruct (calculateClientSideMetrics_Some scenarios) as [pm Hpm];
    [rewrite E; discriminate|].
  rewrite Hpm.
  pose proof (totalALE_eq scenarios Hids) as HA.
  unfold Dashboard.calculateClientSideMetrics in Hpm.
  destruct (Dashboard.Math_max _); [|discriminate].
  injection Hpm as <-. exact HA.
Qed.

(** X19.  When the frequency step and the magnitude step of the wizard are
    complete, the scenario that [handleSubmit] hands to
    [handleCreateScenario] is appended under the given id, its ALE on the
    dashboard is the ALE the wizard computed from the range medians, and it
    is positive; in a portfolio of distinct ids that does not hold the new
    id yet, the total ALE grows by exactly that amount. *)
Theorem X19_submitted_scenario_ale (formData : FormData)
    (legacy : PointEstimates) (scenarios : list RiskScenario) (now : string)
    (Hlef : isStepComplete_lef formData = true)
    (Hlm : isStepComplete_lm legacy = true) :
  exists s,
    handleSubmit (App.handleCreateScenario scenarios now) formData legacy
      = scenarios ++ [s] /\
    id s = now /\
    scenarioALE s == calculateALE formData legacy /\
    0 < scenarioALE s /\
    (List.NoDup (map id scenarios) -> ~ In now (map id scenarios) ->
     portfolioALE (scenarios ++ [s])
     == portfolioALE scenarios + calculateALE formData legacy).
Proof.
  eexists. split; [reflexivity|]. split; [reflexivity|].
  assert (Hale : scenarioALE
                   (mkScenario now (tefP50 formData)
                      (susceptibilityP50 formData)
                      (productivity legacy) (response legacy)
                      (replacement legacy) (fines legacy)
                      (competitiveAdvantage legacy) (reputation legacy)
                      (slef legacy))
                 == calculateALE formData legacy).
  { unfold scenarioALE, UseFairCalculation.calculateClientSide,
      calculateALE, calculateLEF, calculateLM, calculatePrimaryLoss,
      calculateSecondaryLoss. simpl. reflexivity. }
  simpl App.threatEventFrequency. simpl App.susceptibility.
  simpl App.productivity. simpl App.response. simpl App.replacement.
  simpl App.fines. simpl App.competitiveAdvantage. simpl App.reputation.
  simpl App.slef.
  split; [exact Hale|].
  assert (Hpos : 0 < calculateALE formData legacy).
  { unfold isStepComplete_lef in Hlef. unfold isStepComplete_lm in Hlm.
    repeat (apply andb_true_iff in Hlef as [Hlef ?]).
    apply Qgtb_true in Hlef. apply Qgtb_true in Hlm.
    match goal with H : Qgtb (susceptibilityP50 formData) 0 = true |- _ =>
      apply Qgtb_true in H; rename H into Hs end.
    unfold calculateALE, calculateLEF.
    set (lm := calculateLM legacy) in *.
    assert (Hd : susceptibilityP50 formData / 100
                 == susceptibilityP50 formData * (1 # 100)) by field.
    rewrite Hd.
    assert (Hs' : 0 < susceptibilityP50 formData * (1 # 100)) by qlra.
    apply Qmult_lt_0_compat; [|exact Hlm].
    apply Qmult_lt_0_compat; assumption. }
  split; [rewrite Hale; exact Hpos|].
  intros Hids Hfresh.
  rewrite !portfolioALE_sum.
  - rewrite map_app. cbn [map]. rewrite Qsum_snoc, Hale. reflexivity.
  - exact Hids.
  - rewrite map_app. cbn [map id]. now apply NoDup_snoc.
Qed.

End WizardFacts.

Section WizardWitness.

Import ScenarioCreation ScenarioWizard.

Lemma X19_submitted_scenario_ale_witness :
  isStepComplete_lef sampleForm = true /\
  isStepComplete_lm sampleEstimates = true /\
  exists s,
    handleSubmit (App.handleCreateScenario [dataBreach] "1700000000000")
      sampleForm sampleEstimates = [dataBreach] ++ [s] /\
    id s = "1700000000000"%string /\
    scenarioALE s == calculateALE sampleForm sampleEstimates /\
    0 < scenarioALE s /\
    (List.NoDup (map id [dataBreach]) ->
     ~ In "1700000000000"%string (map id [dataBreach]) ->
     portfolioALE ([dataBreach] ++ [s])
     == portfolioALE [dataBreach] + calculateALE sampleForm sampleEstimates).
Proof.
  split; [reflexivity|]. split; [reflexivity|].
  apply (X19_submitted_scenario_ale sampleForm sampleEstimates [dataBreach]
           "1700000000000"); reflexivity.
Defined.

(** X20.  The wizard's navigation is a walk along the list of steps:
    [handleNext] and [handleBack] always find a step to show, they undo each
    other away from the two ends, and at the ends they stay put, on the
    final review going forward and on the metadata going back. *)
Theorem X20_wizard_navigation (s : Step) :
  (exists t, handleNext s = Some t /\
             (s <> review -> t <> s /\ handleBack t = Some s)) /\
  (exists t, handleBack s = Some t /\
             (s <> metadata -> t <> s /\ handleNext t = Some s)) /\
  handleNext review = Some review /\
  handleBack metadata = Some metadata.
Proof.
  destruct s;
    (split; [eexists; split; [reflexivity|];
             intros H;
             first [exfalso; apply H; reflexivity
                   | split; [discriminate | reflexivity]]|]);
    (split; [eexists; split; [reflexivity|];
             intros H;
             first [exfalso; apply H; reflexivity
                   | split; [discriminate | reflexivity]]|]);
    split; reflexivity.
Qed.

End WizardWitness.

Section AppFacts.

Import App.

Lemma map_id_update (scenarios : list RiskScenario) (u : RiskScenario) :
  map id (handleUpdateScenario scenarios u) = map id scenarios.
Proof.
  unfold handleUpdateScenario.
  induction scenarios as [|s t IH]; [reflexivity|].
  cbn [map]. rewrite IH. f_equal.
  destruct (String.eqb (id s) (id u)) eqn:E; [|reflexivity].
  apply String.eqb_eq in E. now symmetry.
Qed.

Lemma map_id_delete (scenarios : list RiskScenario) (k : string) :
  map id (handleDeleteScenario scenarios k)
  = List.filter (fun i => negb (String.eqb i k)) (map id scenarios).
Proof.
  unfold handleDeleteScenario.
  induction scenarios as [|s t IH]; [reflexivity|].
  cbn [map List.filter].
  destruct (negb (String.eqb (id s) k)); cbn [map]; [f_equal|]; exact IH.
Qed.

Lemma NoDup_filter_list (A : Type) (p : A -> bool) (l : list A) :
  List.NoDup l -> List.NoDup (List.filter p l).
Proof.
  induction 1 as [|x l Hx _ IH]; cbn [List.filter]; [constructor|].
  destruct (p x); [|exact IH].
  constructor; [|exact IH].
  intros Hin. apply filter_In in Hin. now destruct Hin.
Qed.

(** X21.  The handlers of the scenario list keep the ids distinct, as the
    dashboard's table keyed by id needs them.  An update changes no id and
    no position, and puts the new version exactly where the id matches; a
    deletion removes the scenario with the given id and nothing else, in
    order; a creation keeps the ids distinct exactly when the new id
    (the clock reading) is not in use yet. *)
Theorem X21_handlers_keep_ids_distinct (scenarios : list RiskScenario)
    (Hids : List.NoDup (map id scenarios)) :
  (forall u,
     map id (handleUpdateScenario scenarios u) = map id scenarios /\
     List.NoDup (map id (handleUpdateScenario scenarios u)) /\
     (forall i s, nth_error scenarios i = Some s ->
        nth_error (handleUpdateScenario scenarios u) i
        = Some (if String.eqb (id s) (id u) then u else s))) /\
  (forall k,
     List.NoDup (map id (handleDeleteScenario scenarios k)) /\
     ~ In k (map id (handleDeleteScenario scenarios k)) /\
     (forall s, In s (handleDeleteScenario scenarios k)
                <-> In s scenarios /\ id s <> k)) /\
  (forall now new,
     List.NoDup (map id (handleCreateScenario scenarios now new))
     <-> ~ In now (map id scenarios)).
Proof.
  split; [|split].
  - intros u. split; [apply map_id_update|].
    split; [rewrite map_id_update; exact Hids|].
    intros i s Hi. unfold handleUpdateScenario.
    rewrite nth_error_map, Hi. reflexivity.
  - intros k. split; [|split].
    + rewrite map_id_delete. now apply NoDup_filter_list.
    + rewrite map_id_delete. intros Hin. apply filter_In in Hin.
      destruct Hin as [_ Hk]. rewrite String.eqb_refl in Hk. discriminate.
    + intros s. unfold handleDeleteScenario. rewrite filter_In.
      rewrite negb_true_iff, String.eqb_neq. reflexivity.
  - intros now new. unfold handleCreateScenario.
    rewrite map_app. cbn [map id]. split.
    + intros Hnd Hin.
      apply (Permutation_NoDup
               (Permutation_sym (Permutation_cons_append _ now))) in Hnd.
      inversion Hnd. contradiction.
    + intros Hfresh. now apply NoDup_snoc.
Qed.

Lemma X21_handlers_keep_ids_distinct_witness :
  List.NoDup (map id [dataBreach; dormant]) /\
  List.NoDup (map id (handleDeleteScenario [dataBreach; dormant] "2")) /\
  ~ In "2"%string (map id (handleDeleteScenario [dataBreach; dormant] "2")) /\
  (forall s, In s (handleDeleteScenario [dataBreach; dormant] "2")
             <-> In s [dataBreach; dormant] /\ id s <> "2"%string).
Proof.
  split; [exact distinct_ids_demo|].
  exact (proj1 (proj2 (X21_handlers_keep_ids_distinct [dataBreach; dormant]
                         distinct_ids_demo)) "2"%string).
Defined.

End AppFacts.

Section FrequencyStep.

Import ScenarioCreation LEFStep.

Ltac bools :=
  repeat match goal with
  | H : _ && _ = true |- _ => apply andb_true_iff in H as [? ?]
  | H : Qgtb _ _ = true |- _ => apply Qgtb_true in H
  | H : Qgtb _ _ = false |- _ => apply Qgtb_false in H
  | H : Qle_bool _ _ = true |- _ => apply Qle_bool_iff in H
  end.

Ltac holds x y := rewrite (proj2 (Qle_bool_iff x y)) by qlra.
Ltac exceeds x y := rewrite (proj2 (Qgtb_true x y)) by qlra.

(** X22.  When the TEF input and the susceptibility input of the frequency
    step both report a valid range (the first bounded below by 0, the second
    a probability between 0 and 100) and the two medians are positive, the
    wizard counts the step as complete and every instant check of the step
    passes. *)
Theorem X22_valid_inputs_complete_step (formData : FormData)
    (Htef : RangeEstimationInput.isValid (tefP10 formData) (tefP50 formData)
              (tefP90 formData) false (Some 0) None = true)
    (Hsusc : RangeEstimationInput.isValid (susceptibilityP10 formData)
               (susceptibilityP50 formData) (susceptibilityP90 formData)
               true (Some 0) (Some 100) = true)
    (Htef50 : 0 < tefP50 formData)
    (Hsusc50 : 0 < susceptibilityP50 formData) :
  isStepComplete_lef formData = true /\ allChecksPass formData = true.
Proof.
  apply isValid_spec in Htef. apply isValid_spec in Hsusc.
  destruct Htef as (T0 & T1 & T2 & _).
  destruct Hsusc as (S0 & S1 & S2 & S3 & _ & _).
  specialize (S3 eq_refl).
  unfold isStepComplete_lef, allChecksPass, getOrderBoundsCheck, every_pass.
  exceeds (tefP50 formData) 0. exceeds (susceptibilityP50 formData) 0.
  exceeds (tefP90 formData) 0. exceeds (susceptibilityP90 formData) 0.
  holds 0 (tefP10 formData). holds 0 (susceptibilityP10 formData).
  holds (tefP10 formData) (tefP50 formData).
  holds (tefP50 formData) (tefP90 formData).
  holds (susceptibilityP10 formData) (susceptibilityP50 formData).
  holds (susceptibilityP50 formData) (susceptibilityP90 formData).
  holds (susceptibilityP90 formData) 100.
  split; reflexivity.
Qed.

Lemma X22_valid_inputs_complete_step_witness :
  isStepComplete_lef sampleForm = true /\ allChecksPass sampleForm = true.
Proof.
  apply (X22_valid_inputs_complete_step sampleForm); reflexivity.
Defined.

(** X23.  Completing the frequency step does not need the susceptibility
    range to stay within 100%: for a form the wizard counts as complete,
    the instant checks of the step all pass exactly when the upper
    susceptibility is at most 100. *)
Theorem X23_complete_step_and_checks (formData : FormData)
    (Hdone : isStepComplete_lef formData = true) :
  allChecksPass formData = true <-> susceptibilityP90 formData <= 100.
Proof.
  unfold isStepComplete_lef in Hdone. bools.
  unfold allChecksPass, getOrderBoundsCheck, every_pass.
  holds (tefP10 formData) (tefP50 formData).
  holds (tefP50 formData) (tefP90 formData).
  holds (susceptibilityP10 formData) (susceptibilityP50 formData).
  holds (susceptibilityP50 formData) (susceptibilityP90 formData).
  holds 0 (susceptibilityP10 formData).
  cbn [andb forallb status].
  destruct (Qle_bool (susceptibilityP90 formData) 100) eqn:E;
    cbn [forallb status andb].
  - apply Qle_bool_iff in E. split; [intros _; exact E | reflexivity].
  - split; [discriminate|]. intros Hle. apply Qle_bool_iff in Hle.
    congruence.
Qed.

Lemma X23_complete_step_and_checks_witness :
  allChecksPass sampleForm = true <-> susceptibilityP90 sampleForm <= 100.
Proof.
  apply (X23_complete_step_and_checks sampleForm). reflexivity.
Defined.

Lemma scaled_pair_le (a b c d : Q) :
  0 <= a -> a <= b -> 0 <= c -> c <= d ->
  a * (c / 100) <= b * (d / 100).
Proof.
  intros Ha Hab Hc Hcd.
  assert (E1 : a * (c / 100) == (a * c) * (1 # 100)) by field.
  assert (E2 : b * (d / 100) == (b * d) * (1 # 100)) by field.
  rewrite E1, E2.
  assert (H : a * c <= b * d).
  { apply Qle_trans with (b * c).
    - apply Qmult_le_compat_r; assumption.
    - rewrite (Qmult_comm b c), (Qmult_comm b d).
      apply Qmult_le_compat_r; [assumption | qlra]. }
  qlra.
Qed.

Lemma scaled_le_self (a c : Q) :
  0 <= a -> 0 <= c -> c <= 100 -> 0 <= a * (c / 100) <= a.
Proof.
  intros Ha Hc Hc'.
  assert (E : a * (c / 100) == (a * c) * (1 # 100)) by field.
  rewrite E.
  assert (H0 : 0 <= a * c) by (apply Qmult_le_0_compat; assumption).
  assert (H1 : a * c <= a * 100).
  { rewrite (Qmult_comm a c), (Qmult_comm a 100).
    apply Qmult_le_compat_r; assumption. }
  split; qlra.
Qed.

Lemma scaled_le_self_nonneg (a c : Q) :
  0 <= a -> 0 <= c -> 0 <= a * (c / 100).
Proof.
  intros Ha Hc.
  assert (E : a * (c / 100) == (a * c) * (1 # 100)) by field.
  rewrite E.
  assert (H0 : 0 <= a * c) by (apply Qmult_le_0_compat; assumption).
  qlra.
Qed.

(** X24.  With TEF decomposed into contact frequency and probability of
    action, the TEF range the step stores stays a usable range: if the
    contact range and the probability range are in order and non-negative,
    and the probabilities are at most 100, then after either input changes
    the stored TEF percentiles are non-negative, in order, and none exceeds
    the contact frequency at the same percentile. *)
Theorem X24_decomposed_tef_usable (d : Decomposition) (formData : FormData)
    (p10 p50 p90 : Q) :
  (usable {| P10 := p10; P50 := p50; P90 := p90 |} ->
   usable (probActionRange d) -> P90 (probActionRange d) <= 100 ->
   let '(d', formData') := contactFreq_onChange d formData p10 p50 p90 in
   usable (tefRange formData') /\
   below (tefRange formData') (contactRange d') /\
   contactRange d' = {| P10 := p10; P50 := p50; P90 := p90 |} /\
   probActionRange d' = probActionRange d) /\
  (usable {| P10 := p10; P50 := p50; P90 := p90 |} -> p90 <= 100 ->
   usable (contactRange d) ->
   let '(d', formData') := probAction_onChange d formData p10 p50 p90 in
   usable (tefRange formData') /\
   below (tefRange formData') (contactRange d') /\
   contactRange d' = contactRange d /\
   probActionRange d' = {| P10 := p10; P50 := p50; P90 := p90 |}).
Proof.
  unfold usable, monotone, below, contactFreq_onChange, probAction_onChange,
    tefRange, contactRange, probActionRange, withTEF.
  cbn [P10 P50 P90 tefP10 tefP50 tefP90 contactFreqP10 contactFreqP50
       contactFreqP90 probActionP10 probActionP50 probActionP90].
  split.
  - intros (C0 & C1 & C2) (A0 & A1 & A2) A3.
    repeat split;
      try (apply scaled_pair_le; qlra);
      try (apply scaled_le_self; qlra).
  - intros (A0 & A1 & A2) A3 (C0 & C1 & C2).
    repeat split;
      try (apply scaled_pair_le; qlra);
      try (apply scaled_le_self; qlra).
Qed.

Lemma X24_decomposed_tef_usable_witness :
  usable {| P10 := 10; P50 := 20; P90 := 40 |} /\
  usable (probActionRange sampleDecomposition) /\
  P90 (probActionRange sampleDecomposition) <= 100 /\
  let '(d', formData') :=
    contactFreq_onChange sampleDecomposition sampleForm 10 20 40 in
  usable (tefRange formData') /\
  below (tefRange formData') (contactRange d') /\
  contactRange d' = {| P10 := 10; P50 := 20; P90 := 40 |} /\
  probActionRange d' = probActionRange sampleDecomposition.
Proof.
  assert (H1 : usable {| P10 := 10; P50 := 20; P90 := 40 |})
    by (repeat split; vm_compute; discriminate).
  assert (H2 : usable (probActionRange sampleDecomposition))
    by (repeat split; vm_compute; discriminate).
  assert (H3 : P90 (probActionRange sampleDecomposition) <= 100)
    by (vm_compute; discriminate).
  split; [exact H1|]. split; [exact H2|]. split; [exact H3|].
  exact (proj1 (X24_decomposed_tef_usable sampleDecomposition sampleForm
                  10 20 40) H1 H2 H3).
Defined.

End FrequencyStep.

Section MagnitudeStep.

Import LMStep.

Lemma field_value (r : Percentiles) (p : Percentile) :
  field r p == match p with p10 => P10 r | p50 => P50 r | p90 => P90 r end.
Proof. unfold field. apply or_zero_eq. Qed.

Lemma calculateLossMagnitude_plain (formData : FormData) (p : Percentile) :
  let v r := match p with p10 => P10 r | p50 => P50 r | p90 => P90 r end in
  calculateLossMagnitude formData p ==
  (v (productivity formData) + v (response formData)
   + v (replacement formData))
  + (v (fines formData) + v (competitiveAdvantage formData)
     + v (reputation formData)) * (v (slef formData) / 100).
Proof.
  cbv zeta.
  unfold calculateLossMagnitude, calculatePrimaryLoss, calculateSecondaryLoss.
  rewrite !field_value. reflexivity.
Qed.

(** X25.  When the seven ranges of the magnitude step are in order and
    non-negative, the loss magnitude the step displays is in order too:
    [LM(p10) <= LM(p50) <= LM(p90)], and none is negative.  If, besides,
    every instant check of the step passes, the median loss magnitude is
    positive. *)
Theorem X25_loss_magnitude_ordered (formData : FormData)
    (Hranges : usable_losses formData) :
  0 <= calculateLossMagnitude formData p10 /\
  calculateLossMagnitude formData p10 <= calculateLossMagnitude formData p50 /\
  calculateLossMagnitude formData p50 <= calculateLossMagnitude formData p90 /\
  (allChecksPass formData = true ->
   0 < calculateLossMagnitude formData p50).
Proof.
  destruct Hranges as
    ((A0 & A1 & A2) & (B0 & B1 & B2) & (C0 & C1 & C2) & (D0 & D1 & D2)
     & (E0 & E1 & E2) & (F0 & F1 & F2) & (S0 & S1 & S2)).
  pose proof (calculateLossMagnitude_plain formData p10) as L10.
  pose proof (calculateLossMagnitude_plain formData p50) as L50.
  pose proof (calculateLossMagnitude_plain formData p90) as L90.
  cbv zeta in L10, L50, L90.
  set (sec10 := P10 (fines formData) + P10 (competitiveAdvantage formData)
                + P10 (reputation formData)) in *.
  set (sec50 := P50 (fines formData) + P50 (competitiveAdvantage formData)
                + P50 (reputation formData)) in *.
  set (sec90 := P90 (fines formData) + P90 (competitiveAdvantage formData)
                + P90 (reputation formData)) in *.
  assert (G10 : 0 <= sec10) by (unfold sec10; qlra).
  assert (G50 : sec10 <= sec50) by (unfold sec10, sec50; qlra).
  assert (G90 : sec50 <= sec90) by (unfold sec50, sec90; qlra).
  assert (T0 : 0 <= sec10 * (P10 (slef formData) / 100)).
  { apply (scaled_le_self_nonneg sec10 (P10 (slef formData))); assumption. }
  assert (T1 : sec10 * (P10 (slef formData) / 100)
               <= sec50 * (P50 (slef formData) / 100))
    by (apply scaled_pair_le; assumption).
  assert (T2 : sec50 * (P50 (slef formData) / 100)
               <= sec90 * (P90 (slef formData) / 100))
    by (apply scaled_pair_le; qlra).
  split; [rewrite L10; qlra|].
  split; [rewrite L10, L50; qlra|].
  split; [rewrite L50, L90; qlra|].
  intros Hchecks. rewrite L50.
  unfold allChecksPass, getValidationChecks, every_pass in Hchecks.
  rewrite forallb_app in Hchecks.
  apply andb_true_iff in Hchecks as [Hany Hsec].
  destruct (Qgtb (P50 (fines formData)) 0
            || Qgtb (P50 (competitiveAdvantage formData)) 0
            || Qgtb (P50 (reputation formData)) 0) eqn:Esec.
  - cbn [forallb] in Hsec.
    destruct (Qgtb (P50 (slef formData)) 0
              && Qle_bool (P10 (slef formData)) (P50 (slef formData))
              && Qle_bool (P50 (slef formData)) (P90 (slef formData)))
      eqn:Eslef; [|discriminate Hsec].
    apply andb_true_iff in Eslef as [Eslef _].
    apply andb_true_iff in Eslef as [Eslef _].
    apply Qgtb_true in Eslef.
    assert (Hpos : 0 < sec50).
    { apply orb_true_iff in Esec as [Esec | Esec];
        [apply orb_true_iff in Esec as [Esec | Esec]|];
        apply Qgtb_true in Esec; unfold sec50; qlra. }
    assert (E : sec50 * (P50 (slef formData) / 100)
                == sec50 * (P50 (slef formData) * (1 # 100))) by field.
    assert (Hs : 0 < P50 (slef formData) * (1 # 100)) by qlra.
    assert (Hprod : 0 < sec50 * (P50 (slef formData) * (1 # 100)))
      by (apply Qmult_lt_0_compat; assumption).
    rewrite E. qlra.
  - cbn [forallb] in Hany.
    destruct (Qgtb (P50 (productivity formData)) 0
              || Qgtb (P50 (response formData)) 0
              || Qgtb (P50 (replacement formData)) 0
              || Qgtb (P50 (fines formData)) 0
              || Qgtb (P50 (competitiveAdvantage formData)) 0
              || Qgtb (P50 (reputation formData)) 0) eqn:Eany;
      [|discriminate Hany].
    assert (Hprim : Qgtb (P50 (productivity formData)) 0
                    || Qgtb (P50 (response formData)) 0
                    || Qgtb (P50 (replacement formData)) 0 = true).
    { apply orb_false_iff in Esec as [Esec Z3].
      apply orb_false_iff in Esec as [Z1 Z2].
      rewrite Z1, Z2, Z3 in Eany. rewrite !orb_false_r in Eany.
      exact Eany. }
    assert (T50 : 0 <= sec50 * (P50 (slef formData) / 100)) by qlra.
    apply orb_true_iff in Hprim as [Hprim | Hprim];
      [apply orb_true_iff in Hprim as [Hprim | Hprim]|];
      apply Qgtb_true in Hprim; qlra.
Qed.

End MagnitudeStep.

Lemma X25_loss_magnitude_ordered_witness :
  usable_losses sampleLosses /\
  0 <= LMStep.calculateLossMagnitude sampleLosses LMStep.p10 /\
  LMStep.calculateLossMagnitude sampleLosses LMStep.p10
  <= LMStep.calculateLossMagnitude sampleLosses LMStep.p50 /\
  LMStep.calculateLossMagnitude sampleLosses LMStep.p50
  <= LMStep.calculateLossMagnitude sampleLosses LMStep.p90 /\
  (LMStep.allChecksPass sampleLosses = true ->
   0 < LMStep.calculateLossMagnitude sampleLosses LMStep.p50).
Proof.
  assert (H : usable_losses sampleLosses)
    by (repeat split; vm_compute; discriminate).
  split; [exact H|].
  exact (X25_loss_magnitude_ordered sampleLosses H).
Defined.

Section SanityFacts.

Import SanityChecks.

Lemma length_if_singleton (A : Type) (b : bool) (x : A) :
  length (if b then [x] else []) = (if b then 1 else 0)%nat.
Proof. now destruct b. Qed.

(** X26.  The sanity checks never show more than four of their five
    warnings, because the warning about a SLEF that is on with no secondary
    loss and the warning about secondary losses with a SLEF of zero exclude
    each other.  A TEF of zero always brings two warnings, the one about the
    TEF and the one about a low frequency, so the component is never silent
    about it. *)
Theorem X26_sanity_checks (scenario : RiskScenario) :
  (length (checks scenario) <= 4)%nat /\
  (threatEventFrequency scenario == 0 ->
   In (Lit "Threat Event Frequency (TEF) is 0—no loss events will occur. Consider estimating a non-zero TEF.")
      (checks scenario) /\
   In (Cat (Lit "Low-frequency scenario (LEF = ")
         (Cat (Fixed (threatEventFrequency scenario
                      * (susceptibility scenario / 100)) 3)
            (Lit "/yr). Monte Carlo sampling may be sparse in the tail.")))
      (checks scenario) /\
   rendersNothing scenario = false).
Proof.
  split.
  - unfold checks. rewrite !length_app, !length_if_singleton.
    destruct (Qgtb (slef scenario) 0) eqn:E1;
      destruct (Qeq_bool (slef scenario) 0) eqn:E2.
    + apply Qgtb_true in E1. apply Qeq_bool_iff in E2.
      rewrite E2 in E1. discriminate E1.
    + rewrite andb_false_r.
      repeat match goal with |- context [if ?b then _ else _] =>
        destruct b end; simpl; lia.
    + cbn [andb].
      repeat match goal with |- context [if ?b then _ else _] =>
        destruct b end; simpl; lia.
    + cbn [andb]. rewrite andb_false_r.
      repeat match goal with |- context [if ?b then _ else _] =>
        destruct b end; simpl; lia.
  - intros Htef.
    assert (Hz : Qeq_bool (threatEventFrequency scenario) 0 = true)
      by now apply Qeq_bool_iff.
    assert (Hlow : Qltb (threatEventFrequency scenario
                         * (susceptibility scenario / 100)) (1 # 10) = true).
    { apply Qltb_true. rewrite Htef. rewrite Qmult_0_l. reflexivity. }
    assert (Hin1 : In (Lit "Threat Event Frequency (TEF) is 0—no loss events will occur. Consider estimating a non-zero TEF.")
                     (checks scenario)).
    { unfold checks. rewrite Hz. rewrite !in_app_iff.
      right. right. right. right. now left. }
    assert (Hin2 : In (Cat (Lit "Low-frequency scenario (LEF = ")
                        (Cat (Fixed (threatEventFrequency scenario
                                     * (susceptibility scenario / 100)) 3)
                           (Lit "/yr). Monte Carlo sampling may be sparse in the tail.")))
                     (checks scenario)).
    { unfold checks. rewrite Hlow. rewrite !in_app_iff.
      right. left. now left. }
    split; [exact Hin1|]. split; [exact Hin2|].
    unfold rendersNothing.
    destruct (checks scenario) as [|c t]; [destruct Hin1 | reflexivity].
Qed.

End SanityFacts.

Section KeyedSums.

Variable A : Type.
Variable key : A -> Q.

Lemma Qsum_map_filter_positive (l : list A) :
  (forall a, In a l -> 0 <= key a) ->
  Qsum (map key (List.filter (fun a => Qgtb (key a) 0) l))
  == Qsum (map key l).
Proof.
  induction l as [|x t IH]; intros H; [reflexivity|].
  assert (Hx : 0 <= key x) by (apply H; now left).
  assert (Ht : forall a, In a t -> 0 <= key a)
    by (intros a Ha; apply H; now right).
  cbn [List.filter map].
  destruct (Qgtb (key x) 0) eqn:E; cbn [map].
  - rewrite !Qsum_cons, (IH Ht). reflexivity.
  - apply Qgtb_false in E. rewrite Qsum_cons, (IH Ht). qlra.
Qed.

Lemma Qsum_map_scaled (l : list A) (k : Q) :
  Qsum (map (fun a => key a * k) l) == Qsum (map key l) * k.
Proof.
  induction l as [|x t IH]; [unfold Qsum; simpl; ring|].
  cbn [map]. rewrite !Qsum_cons, IH. ring.
Qed.

End KeyedSums.

Section DriverFacts.

Import DriverChart.

(** X27.  For a scenario with no negative factor, a positive loss
    magnitude and a positive ALE, the bars of the driver chart decompose the
    ALE: their contributions are positive, none exceeds the ALE, they come
    largest first, they add up to the ALE, and their percentages add up to
    100. *)
Theorem X27_drivers_decompose_ale (scenario : RiskScenario) (ale : Q)
    (Hnonneg : nonnegative_factors scenario)
    (Hlm : 0 < totalLM scenario)
    (Hale : 0 < ale) :
  exists bars,
    drivers scenario ale = Some bars /\
    Qsum (map contribution bars) == ale /\
    Qsum (map (fun d => percentage d ale) bars) == 100 /\
    StronglySorted (fun a b => contribution b <= contribution a) bars /\
    (forall d, In d bars -> 0 < contribution d <= ale).
Proof.
  destruct Hnonneg as (H1 & H2 & H3 & H4 & H5 & H6 & H7 & H8 & H9).
  unfold drivers.
  assert (Hz : Qeq_bool (totalLM scenario) 0 = false).
  { apply Qeq_bool_apart. intros E. rewrite E in Hlm. discriminate. }
  rewrite Hz.
  set (T := totalLM scenario) in *.
  set (sp := slef scenario / 100).
  assert (Hsp : 0 <= sp).
  { unfold sp. assert (E : slef scenario / 100 == slef scenario * (1 # 100))
      by field. rewrite E. qlra. }
  set (raw := [ _ ; _ ; _ ; _ ; _ ; _ ]).
  set (kept := List.filter (fun d => Qgtb (contribution d) 0) raw).
  set (bars := Array_sort_by (fun a b => contribution b - contribution a) kept).
  exists bars. split; [reflexivity|].
  assert (Hshare : forall x, 0 <= x -> 0 <= x / T * ale).
  { intros x Hx.
    assert (Hq : x / T * T == x) by (field; qlra).
    assert (0 <= x / T).
    { destruct (Qlt_le_dec (x / T) 0) as [Hneg|Hok]; [|exact Hok].
      exfalso. assert (x / T * T < 0) by qnra. qlra. }
    apply Qmult_le_0_compat; qlra. }
  assert (Hraw_nonneg : forall d, In d raw -> 0 <= contribution d).
  { intros d Hd. unfold raw in Hd. cbn [In] in Hd.
    destruct Hd as [<- | [<- | [<- | [<- | [<- | [<- | []]]]]]];
      cbn [contribution]; apply Hshare; try assumption;
      apply Qmult_le_0_compat; assumption. }
  assert (Hraw_sum : Qsum (map contribution raw) == ale).
  { unfold raw. cbn [map contribution]. rewrite !Qsum_cons.
    change (Qsum []) with 0.
    assert (ET : T == productivity scenario + response scenario
                      + replacement scenario
                      + (fines scenario + competitiveAdvantage scenario
                         + reputation scenario) * sp)
      by reflexivity.
    assert (Hq : forall x, x / T * ale == x * (ale / T))
      by (intros x; field; qlra).
    rewrite !Hq.
    assert (Hone : T * (ale / T) == ale) by (field; qlra).
    rewrite <- Hone at 7. rewrite ET. ring. }
  assert (Hperm : Permutation bars kept)
    by (unfold bars; apply Array_sort_by_perm).
  assert (Hsum : Qsum (map contribution bars) == ale).
  { rewrite (Qsum_perm _ _ (Permutation_map contribution Hperm)).
    unfold kept. rewrite Qsum_map_filter_positive; assumption. }
  split; [exact Hsum|].
  split.
  { unfold percentage.
    assert (E : forall d, contribution d / ale * 100
                          == contribution d * (100 / ale))
      by (intros d; field; qlra).
    rewrite (Qsum_map_eq _ (fun d => contribution d / ale * 100)
               (fun d => contribution d * (100 / ale)) bars
               (fun d _ => E d)).
    rewrite (Qsum_map_scaled _ contribution bars (100 / ale)), Hsum.
    field. qlra. }
  split; [apply (Array_sort_by_desc _ contribution)|].
  intros d Hd.
  assert (Hk : In d kept) by (eapply Permutation_in; eassumption).
  unfold kept in Hk. apply filter_In in Hk. destruct Hk as [Hraw Hpos].
  apply Qgtb_true in Hpos. split; [exact Hpos|].
  rewrite <- Hsum.
  apply member_le_Qsum.
  - intros a Ha. apply in_map_iff in Ha. destruct Ha as (d' & <- & Hd').
    assert (Hk' : In d' kept) by (eapply Permutation_in; eassumption).
    unfold kept in Hk'. apply filter_In in Hk'. destruct Hk' as [Hr' _].
    now apply Hraw_nonneg.
  - now apply in_map.
Qed.

End DriverFacts.

Lemma X27_drivers_decompose_ale_witness :
  exists bars,
    DriverChart.drivers dataBreach (ScenarioDetail.calculateALE dataBreach)
      = Some bars /\
    Qsum (map DriverChart.contribution bars)
    == ScenarioDetail.calculateALE dataBreach /\
    Qsum (map (fun d => DriverChart.percentage d
                          (ScenarioDetail.calculateALE dataBreach)) bars)
    == 100 /\
    StronglySorted
      (fun a b => DriverChart.contribution b <= DriverChart.contribution a)
      bars /\
    (forall d, In d bars ->
               0 < DriverChart.contribution d
                 <= ScenarioDetail.calculateALE dataBreach).
Proof.
  apply (X27_drivers_decompose_ale dataBreach
           (ScenarioDetail.calculateALE dataBreach)
           nonnegative_factors_dataBreach); reflexivity.
Defined.

Section IndustryFacts.

Import BenchmarkComparison.




End IndustryFacts.

Section AleAgreement.

(** X29.  Every component that computes the ALE of a scenario on its own
    (the dashboard's client-side calculation, the scenario detail view, the
    sensitivity analysis, the benchmark comparison and the driver chart)
    arrives at the same number; and the approximate percentiles of the
    client-side calculation are in order whenever that ALE is not
    negative. *)
Theorem X29_ale_agreement (s : RiskScenario) :
  ScenarioDetail.calculateALE s == scenarioALE s /\
  SensitivityAnalysis.pointALE s == scenarioALE s /\
  BenchmarkComparison.aleOf s == scenarioALE s /\
  ScenarioDetail.calculateLEF s * DriverChart.totalLM s == scenarioALE s /\
  (0 <= scenarioALE s ->
   let r := UseFairCalculation.calculateClientSide s in
   UseFairCalculation.ale_p10 r <= UseFairCalculation.ale_p50 r /\
   UseFairCalculation.ale_p50 r <= UseFairCalculation.ale_p90 r /\
   UseFairCalculation.ale_p90 r <= UseFairCalculation.ale_p95 r /\
   UseFairCalculation.ale_p95 r <= UseFairCalculation.ale_p99 r).
Proof.
  split; [reflexivity|].
  split.
  { rewrite pointALE_plain.
    unfold scenarioALE, UseFairCalculation.calculateClientSide.
    cbn [UseFairCalculation.ale]. field. }
  split; [reflexivity|].
  split; [reflexivity|].
  unfold scenarioALE, UseFairCalculation.calculateClientSide.
  cbn [UseFairCalculation.ale UseFairCalculation.ale_p10
       UseFairCalculation.ale_p50 UseFairCalculation.ale_p90
       UseFairCalculation.ale_p95 UseFairCalculation.ale_p99].
  intros H. cbv zeta.
  cbn [UseFairCalculation.ale UseFairCalculation.ale_p10
       UseFairCalculation.ale_p50 UseFairCalculation.ale_p90
       UseFairCalculation.ale_p95 UseFairCalculation.ale_p99].
  set (a := threatEventFrequency s * (susceptibility s / 100)
            * (productivity s + response s + replacement s
               + (fines s + competitiveAdvantage s + reputation s)
                 * (slef s / 100))) in *.
  repeat split; qlra.
Qed.

End AleAgreement.

Section SeparatorFacts.

Import NumberFormat.

Lemma append_cons (c : Ascii.ascii) (a b : string) :
  String.append (String c a) b = String c (String.append a b).
Proof. reflexivity. Qed.

Lemma append_empty (a : string) : String.append a EmptyString = a.
Proof.
  induction a as [|c a IH]; [reflexivity|].
  now rewrite append_cons, IH.
Qed.

Lemma stripCommas_append (a b : string) :
  stripCommas (String.append a b)
  = String.append (stripCommas a) (stripCommas b).
Proof.
  induction a as [|c a IH]; [reflexivity|].
  rewrite append_cons. simpl.
  destruct (Ascii.eqb c comma); rewrite ?append_cons; now rewrite IH.
Qed.

Lemma stripCommas_plain (s : string) :
  noComma s = true -> stripCommas s = s.
Proof.
  induction s as [|c s IH]; [reflexivity|].
  unfold noComma. cbn [allChars stripCommas].
  intros H. apply andb_true_iff in H as [Hc Hs].
  apply negb_true_iff in Hc. rewrite Hc. f_equal. now apply IH.
Qed.

Lemma stripCommas_separate (s : string) :
  forall prev, stripCommas (fst (separate prev s)) = stripCommas s.
Proof.
  induction s as [|c s IH]; intros prev; [reflexivity|].
  cbn [separate].
  specialize (IH (isWord c)).
  destruct (separate (isWord c) s) as [rest' run_rest].
  cbn [fst] in *.
  destruct (prev && (0 <? (if isDigit c then S run_rest else 0))%nat
            && ((if isDigit c then S run_rest else 0) mod 3 =? 0)%nat);
    cbn [fst stripCommas]; rewrite ?Ascii.eqb_refl;
    cbn [stripCommas]; destruct (Ascii.eqb c comma); now rewrite IH.
Qed.

Lemma splitAtDot_append (s : string) :
  String.append (fst (splitAtDot s)) (snd (splitAtDot s)) = s.
Proof.
  induction s as [|c s IH]; [reflexivity|].
  simpl. destruct (Ascii.eqb c dot); [reflexivity|].
  destruct (splitAtDot s) as [a b]. simpl in *.
  now rewrite append_cons, IH.
Qed.

Lemma stripCommas_formatNumber (s : string) :
  stripCommas (formatNumber s) = stripCommas s.
Proof.
  unfold formatNumber.
  pose proof (splitAtDot_append s) as Hs.
  destruct (splitAtDot s) as [whole fraction]. cbn [fst snd] in Hs.
  rewrite stripCommas_append, stripCommas_separate, <- stripCommas_append.
  now rewrite Hs.
Qed.

Lemma isDigit_isWord (c : Ascii.ascii) : isDigit c = true -> isWord c = true.
Proof. unfold isWord. now intros ->. Qed.

Lemma isDigit_not_dot (c : Ascii.ascii) : isDigit c = true -> Ascii.eqb c dot = false.
Proof.
  intros H. destruct (Ascii.eqb c dot) eqn:E; [|reflexivity].
  apply Ascii.eqb_eq in E. subst c. discriminate H.
Qed.

Lemma splitAtDot_digits (s : string) :
  allDigits s = true -> splitAtDot s = (s, EmptyString).
Proof.
  induction s as [|c s IH]; [reflexivity|].
  unfold allDigits. cbn [allChars splitAtDot].
  intros H. apply andb_true_iff in H as [Hc Hs].
  rewrite (isDigit_not_dot c Hc), (IH Hs). reflexivity.
Qed.

Lemma third_step (m : nat) :
  (S m / 3 = m / 3 + (if (S m mod 3 =? 0) then 1 else 0))%nat.
Proof.
  pose proof (Nat.div_mod_eq m 3) as H1.
  pose proof (Nat.div_mod_eq (S m) 3) as H2.
  pose proof (Nat.mod_upper_bound m 3 ltac:(lia)) as H3.
  pose proof (Nat.mod_upper_bound (S m) 3 ltac:(lia)) as H4.
  destruct (S m mod 3 =? 0)%nat eqn:E.
  - apply Nat.eqb_eq in E. lia.
  - apply Nat.eqb_neq in E. lia.
Qed.

Lemma separate_digits (s : string) :
  allDigits s = true ->
  snd (separate true s) = String.length s /\
  String.length (fst (separate true s))
  = (String.length s + String.length s / 3)%nat.
Proof.
  induction s as [|c s IH]; [intros _; split; reflexivity|].
  unfold allDigits. cbn [allChars]. intros H.
  apply andb_true_iff in H as [Hc Hs].
  destruct (IH Hs) as [IH1 IH2].
  cbn [separate]. rewrite (isDigit_isWord c Hc), Hc.
  destruct (separate true s) as [rest' run_rest].
  cbn [fst snd] in *. subst run_rest.
  split; [reflexivity|].
  cbn [String.length]. rewrite (third_step (String.length s)).
  cbn [andb Nat.ltb Nat.leb].
  destruct (S (String.length s) mod 3 =? 0)%nat;
    cbn [fst String.length]; rewrite IH2; lia.
Qed.

(** X30.  The thousand separators of the range inputs are undone by
    [parseNumber]: for the text of a number, which holds no comma,
    [parseNumber (formatNumber text)] is what [Number] makes of the text
    itself, and [0] for the empty text.  On a text of [n] digits
    [formatNumber] inserts [(n - 1) / 3] separators. *)
Theorem X30_separators_round_trip (Number : string -> option Q)
    (numStr : string) (Hplain : noComma numStr = true) :
  stripCommas (formatNumber numStr) = numStr /\
  parseNumber Number (formatNumber numStr)
  = match numStr with
    | EmptyString => Some 0
    | _ => Number numStr
    end /\
  (allDigits numStr = true -> numStr <> EmptyString ->
   String.length (formatNumber numStr)
   = (String.length numStr + (String.length numStr - 1) / 3)%nat).
Proof.
  assert (Hstrip : stripCommas (formatNumber numStr) = numStr).
  { rewrite stripCommas_formatNumber. now apply stripCommas_plain. }
  split; [exact Hstrip|]. split.
  - unfold parseNumber. rewrite Hstrip.
    destruct numStr as [|c s]; [reflexivity|].
    destruct (formatNumber (String c s)) eqn:E; [discriminate Hstrip|].
    reflexivity.
  - intros Hd Hne. unfold formatNumber.
    rewrite (splitAtDot_digits numStr Hd).
    destruct numStr as [|c s]; [contradiction|].
    unfold allDigits in Hd. cbn [allChars] in Hd.
    apply andb_true_iff in Hd as [Hc Hs].
    destruct (separate_digits s Hs) as [H1 H2].
    cbn [separate]. rewrite (isDigit_isWord c Hc).
    destruct (separate true s) as [rest' run_rest].
    cbn [fst snd andb] in *.
    rewrite append_empty.
    cbn [String.length]. rewrite H2.
    replace (S (String.length s) - 1)%nat with (String.length s) by lia.
    reflexivity.
Qed.

Lemma X30_separators_round_trip_witness :
  noComma "1234567" = true /\
  formatNumber "1234567" = "1,234,567"%string /\
  stripCommas (formatNumber "1234567") = "1234567"%string /\
  parseNumber (fun _ => Some 1234567) (formatNumber "1234567")
  = Some 1234567 /\
  (allDigits "1234567" = true -> "1234567"%string <> EmptyString ->
   String.length (formatNumber "1234567")
   = (String.length "1234567" + (String.length "1234567" - 1) / 3)%nat).
Proof.
  split; [reflexivity|]. split; [reflexivity|].
  exact (X30_separators_round_trip (fun _ => Some 1234567) "1234567"
           eq_refl).
Defined.

End SeparatorFacts.
